(** * The OpenCSD binding of magic-trace: event queue, element classifier,
      decode session

    A shallow embedding of [src/arm/opencsd_binding.c] (with the event model
    of [opencsd_binding.h] and the result conversion of [opencsd_stubs.c]).

    Conventions.
    - [size_t], [uint64_t] and [uint32_t] values are integers in [Z]; every
      arithmetic operation of the C code writes its wrap-around out
      ([size_add], [size_mul], [size_sub], the casts [to_uint32], [to_int]).
    - The heap block [event_buf] is a [list] of events indexed from 0; reads
      use [slot_read], writes stdpp's [<[i:=x]>].  An access outside the
      block has no defined behaviour in C; the model then reads the zero
      event and writes nothing, and [queue_wf] is the invariant under which
      every access of the queue code is inside the block.
    - The allocator and the decoding engine are outside the repository.
      Their answers are inputs of the model: a [realloc_answer] for each
      [realloc], an [engine_reply] for each [ocsd_dt_process_data], an
      error code for each registration.  Every call made to the engine is
      recorded in the list of [extern_call]s a function returns, so that
      "without invoking the engine" is the statement that this list is
      empty. *)

From Stdlib Require Import ZArith Lia String DecimalString.
From stdpp Require Import base list.

Local Open Scope Z_scope.

(* ---------------------------------------------------------------------- *)
(** ** Machine integers *)

Definition SIZE_WIDTH : Z := 2 ^ 64.
Definition PTRDIFF_MAX : Z := 2 ^ 63 - 1.

Definition size_add (a b : Z) : Z := (a + b) mod SIZE_WIDTH.
Definition size_sub (a b : Z) : Z := (a - b) mod SIZE_WIDTH.
Definition size_mul (a b : Z) : Z := (a * b) mod SIZE_WIDTH.

(** [(uint32_t)z], [(uint64_t)z] and [(int)z] on a 32-bit two's complement
    [int]. *)
Definition to_uint32 (z : Z) : Z := z mod 2 ^ 32.
Definition to_uint64 (z : Z) : Z := z mod 2 ^ 64.
Definition to_int (z : Z) : Z := (z + 2 ^ 31) mod 2 ^ 32 - 2 ^ 31.

(* ---------------------------------------------------------------------- *)
(** ** Event model ([opencsd_binding.h]) *)

Inductive mtrace_cs_event_kind_t : Type :=
| MTRACE_CS_EVENT_INSTRUCTION_RANGE
| MTRACE_CS_EVENT_CALL
| MTRACE_CS_EVENT_RETURN
| MTRACE_CS_EVENT_TRACE_ON
| MTRACE_CS_EVENT_TRACE_OFF
| MTRACE_CS_EVENT_EXCEPTION
| MTRACE_CS_EVENT_EXCEPTION_RET.

(** The enumerators' values; [memset (&ev, 0, sizeof ev)] therefore leaves
    [MTRACE_CS_EVENT_INSTRUCTION_RANGE] in [kind]. *)
Definition kind_value (k : mtrace_cs_event_kind_t) : Z :=
  match k with
  | MTRACE_CS_EVENT_INSTRUCTION_RANGE => 0
  | MTRACE_CS_EVENT_CALL => 1
  | MTRACE_CS_EVENT_RETURN => 2
  | MTRACE_CS_EVENT_TRACE_ON => 3
  | MTRACE_CS_EVENT_TRACE_OFF => 4
  | MTRACE_CS_EVENT_EXCEPTION => 5
  | MTRACE_CS_EVENT_EXCEPTION_RET => 6
  end.

Record mtrace_cs_event_t : Type := mk_event {
  kind : mtrace_cs_event_kind_t;
  timestamp : Z;          (* uint64_t *)
  from_addr : Z;          (* uint64_t *)
  to_addr : Z;            (* uint64_t *)
  cpu : Z;                (* int *)
  exception_number : Z    (* uint32_t *)
}.

(** [memset (&ev, 0, sizeof ev)]. *)
Definition zero_event : mtrace_cs_event_t :=
  {| kind := MTRACE_CS_EVENT_INSTRUCTION_RANGE; timestamp := 0;
     from_addr := 0; to_addr := 0; cpu := 0; exception_number := 0 |}.

(** [sizeof (mtrace_cs_event_t)] on an LP64 target: a 4-byte enum padded to
    8, three 8-byte words, two 4-byte words. *)
Definition sizeof_event : Z := 40.

(* ---------------------------------------------------------------------- *)
(** ** The session record ([struct mtrace_opencsd_decoder]) *)

Definition dcd_tree_handle_t : Type := Z.

Record mtrace_opencsd_decoder_t : Type := mk_decoder {
  dcd_tree : dcd_tree_handle_t;
  event_buf : list mtrace_cs_event_t;
  event_buf_cap : Z;
  event_buf_head : Z;     (* next slot to write *)
  event_buf_tail : Z;     (* next slot to read *)
  error_flag : Z;
  error_msg : string
}.

Definition set_queue (dec : mtrace_opencsd_decoder_t)
    (buf : list mtrace_cs_event_t) (cap head tail : Z)
  : mtrace_opencsd_decoder_t :=
  {| dcd_tree := dcd_tree dec; event_buf := buf; event_buf_cap := cap;
     event_buf_head := head; event_buf_tail := tail;
     error_flag := error_flag dec; error_msg := error_msg dec |}.

Definition set_error_msg (dec : mtrace_opencsd_decoder_t) (msg : string)
  : mtrace_opencsd_decoder_t :=
  {| dcd_tree := dcd_tree dec; event_buf := event_buf dec;
     event_buf_cap := event_buf_cap dec;
     event_buf_head := event_buf_head dec;
     event_buf_tail := event_buf_tail dec;
     error_flag := error_flag dec; error_msg := msg |}.

Definition set_error_flag (dec : mtrace_opencsd_decoder_t) (flag : Z)
  : mtrace_opencsd_decoder_t :=
  {| dcd_tree := dcd_tree dec; event_buf := event_buf dec;
     event_buf_cap := event_buf_cap dec;
     event_buf_head := event_buf_head dec;
     event_buf_tail := event_buf_tail dec;
     error_flag := flag; error_msg := error_msg dec |}.

(* ---------------------------------------------------------------------- *)
(** ** Memory of the event buffer *)

(** [buf[i]]. *)
Definition slot_read (buf : list mtrace_cs_event_t) (i : Z)
  : mtrace_cs_event_t :=
  default zero_event (buf !! Z.to_nat i).

(** [buf[i] = ev]. *)
Definition slot_write (buf : list mtrace_cs_event_t) (i : Z)
    (ev : mtrace_cs_event_t) : list mtrace_cs_event_t :=
  <[Z.to_nat i := ev]> buf.

(** [memmove (buf + dst, buf + src, n * sizeof (mtrace_cs_event_t))]: the
    [n] slots from [src] are copied, as if through a temporary, over the [n]
    slots from [dst]. *)
Definition memmove (buf : list mtrace_cs_event_t) (dst src n : Z)
  : list mtrace_cs_event_t :=
  take (Z.to_nat dst) buf
    ++ take (Z.to_nat n) (drop (Z.to_nat src) buf)
    ++ drop (Z.to_nat (dst + n)) buf.

(** What the allocator answers to one [realloc]: [None] when it has no
    memory to give, [Some junk] when it has, [junk k] being the
    indeterminate value found in the [k]-th slot past the old block. *)
Definition realloc_answer : Type := option (nat -> mtrace_cs_event_t).

(** [realloc (buf, bytes)].  The old contents are kept up to the smaller of
    the two sizes.  No object is larger than [PTRDIFF_MAX] bytes, so a
    larger request fails whatever the allocator's state; a failed [realloc]
    leaves the old block as it was. *)
Definition realloc (buf : list mtrace_cs_event_t) (bytes : Z)
    (a : realloc_answer) : option (list mtrace_cs_event_t) :=
  match a with
  | None => None
  | Some junk =>
      if PTRDIFF_MAX <? bytes then None
      else
        let n := Z.to_nat (bytes / sizeof_event) in
        Some (take n (buf ++ (junk <$> seq 0 (n - length buf))))
  end.

(* ---------------------------------------------------------------------- *)
(** ** Event ring-buffer helpers *)

(** [event_buf_push]: the new session record and the returned [int]. *)
Definition event_buf_push (dec : mtrace_opencsd_decoder_t)
    (ev : mtrace_cs_event_t) (a : realloc_answer)
  : mtrace_opencsd_decoder_t * Z :=
  let next_head := size_add (event_buf_head dec) 1 mod event_buf_cap dec in
  if next_head =? event_buf_tail dec then
    (* Buffer full: grow it x2 *)
    let new_cap := size_mul (event_buf_cap dec) 2 in
    match realloc (event_buf dec) (size_mul new_cap sizeof_event) a with
    | None => (dec, -1)
    | Some new_buf =>
        (* Linearise the ring: move tail..end to the new end *)
        let '(new_buf, tail) :=
          if event_buf_head dec <? event_buf_tail dec then
            let old_tail_len :=
              size_sub (event_buf_cap dec) (event_buf_tail dec) in
            (memmove new_buf (size_sub new_cap old_tail_len)
                     (event_buf_tail dec) old_tail_len,
             size_sub new_cap old_tail_len)
          else (new_buf, event_buf_tail dec) in
        let next_head := size_add (event_buf_head dec) 1 mod new_cap in
        (set_queue dec (slot_write new_buf (event_buf_head dec) ev)
                   new_cap next_head tail, 0)
    end
  else
    (set_queue dec (slot_write (event_buf dec) (event_buf_head dec) ev)
               (event_buf_cap dec) next_head (event_buf_tail dec), 0).

(** [event_buf_pop]: the new session record, the returned [int] and what
    [*out] holds afterwards ([None]: not written). *)
Definition event_buf_pop (dec : mtrace_opencsd_decoder_t)
  : mtrace_opencsd_decoder_t * Z * option mtrace_cs_event_t :=
  if event_buf_head dec =? event_buf_tail dec then (dec, 0, None)
  else
    (set_queue dec (event_buf dec) (event_buf_cap dec) (event_buf_head dec)
               (size_add (event_buf_tail dec) 1 mod event_buf_cap dec),
     1, Some (slot_read (event_buf dec) (event_buf_tail dec))).

(* ---------------------------------------------------------------------- *)
(** ** The decoding engine's interface

    The engine (OpenCSD) is a library outside the repository.  Its types are
    written here with the enumerators the binding names, and every other
    enumerator of the same type next to them. *)

Inductive ocsd_gen_trc_elem_t : Type :=
| OCSD_GEN_TRC_ELEM_UNKNOWN
| OCSD_GEN_TRC_ELEM_NO_SYNC
| OCSD_GEN_TRC_ELEM_TRACE_ON
| OCSD_GEN_TRC_ELEM_TRACE_OFF
| OCSD_GEN_TRC_ELEM_EO_TRACE
| OCSD_GEN_TRC_ELEM_PE_CONTEXT
| OCSD_GEN_TRC_ELEM_INSTR_RANGE
| OCSD_GEN_TRC_ELEM_I_RANGE_NOPATH
| OCSD_GEN_TRC_ELEM_ADDR_NACC
| OCSD_GEN_TRC_ELEM_ADDR_UNKNOWN
| OCSD_GEN_TRC_ELEM_EXCEPTION
| OCSD_GEN_TRC_ELEM_EXCEPTION_RET
| OCSD_GEN_TRC_ELEM_TIMESTAMP
| OCSD_GEN_TRC_ELEM_CYCLE_COUNT
| OCSD_GEN_TRC_ELEM_EVENT
| OCSD_GEN_TRC_ELEM_SWTRACE
| OCSD_GEN_TRC_ELEM_SYNC_MARKER
| OCSD_GEN_TRC_ELEM_MEMTRANS
| OCSD_GEN_TRC_ELEM_INSTRUMENTATION
| OCSD_GEN_TRC_ELEM_CUSTOM.

Inductive ocsd_instr_type : Type :=
| OCSD_INSTR_OTHER
| OCSD_INSTR_BR
| OCSD_INSTR_BR_INDIRECT
| OCSD_INSTR_ISB
| OCSD_INSTR_DSB_DMB
| OCSD_INSTR_WFI_WFE
| OCSD_INSTR_TSTART.

(** The fields of [ocsd_generic_trace_elem] the binding reads. *)
Record ocsd_generic_trace_elem : Type := mk_elem {
  elem_type : ocsd_gen_trc_elem_t;
  elem_last_instr_type : ocsd_instr_type;
  elem_st_addr : Z;             (* ocsd_vaddr_t, 64 bits *)
  elem_en_addr : Z;             (* ocsd_vaddr_t, 64 bits *)
  elem_context_ctxt_id : Z;     (* uint32_t *)
  elem_exception_number : Z;    (* uint32_t *)
  elem_timestamp : Z            (* uint64_t *)
}.

(** The element's fields hold values of their C types. *)
Definition elem_in_range (elem : ocsd_generic_trace_elem) : Prop :=
  0 <= elem_st_addr elem < 2 ^ 64 /\
  0 <= elem_en_addr elem < 2 ^ 64 /\
  0 <= elem_context_ctxt_id elem < 2 ^ 32 /\
  0 <= elem_exception_number elem < 2 ^ 32 /\
  0 <= elem_timestamp elem < 2 ^ 64.

(** The two responses the callback gives. *)
Inductive ocsd_datapath_resp_t : Type :=
| OCSD_RESP_CONT
| OCSD_RESP_FATAL_SYS_ERR.

(** The engine's error codes: the three the binding names, and any other
    by its number. *)
Inductive ocsd_err_t : Type :=
| OCSD_OK
| OCSD_ERR_UNSUPP_DECODE_PKT
| OCSD_ERR_FLUSH_COMPLETE
| OCSD_ERR_other (code : Z).

Definition ocsd_err_eqb (a b : ocsd_err_t) : bool :=
  match a, b with
  | OCSD_OK, OCSD_OK => true
  | OCSD_ERR_UNSUPP_DECODE_PKT, OCSD_ERR_UNSUPP_DECODE_PKT => true
  | OCSD_ERR_FLUSH_COMPLETE, OCSD_ERR_FLUSH_COMPLETE => true
  | OCSD_ERR_other m, OCSD_ERR_other n => m =? n
  | _, _ => false
  end.

Inductive ocsd_datapath_op_t : Type :=
| OCSD_OP_DATA
| OCSD_OP_FLUSH.

Inductive builtin_decoder : Type :=
| OCSD_BUILTIN_DCD_ETMV3
| OCSD_BUILTIN_DCD_ETMV4I
| OCSD_BUILTIN_DCD_ETE.

(** The configuration blocks [mtrace_opencsd_create] fills in (the fields it
    leaves at the zero of [memset] are not listed). *)
Inductive decoder_cfg : Type :=
| ocsd_etmv3_cfg (reg_idr : Z)
| ocsd_etmv4_cfg (reg_idr0 reg_idr1 reg_idr2 reg_idr8 reg_configr : Z).

(** The engine's header defines the invalid tree handle as the null
    handle. *)
Definition C_API_INVALID_TREE_HANDLE : dcd_tree_handle_t := 0.

(** Calls that leave the binding: to the engine and to [free]. *)
Inductive extern_call : Type :=
| call_ocsd_create_dcd_tree
| call_ocsd_dt_set_gen_elem_outfn (h : dcd_tree_handle_t)
| call_ocsd_dt_create_decoder (h : dcd_tree_handle_t)
    (name : builtin_decoder) (cfg : decoder_cfg)
| call_ocsd_dt_add_named_mem_acc (h : dcd_tree_handle_t)
    (st_address en_address : Z) (filename : string) (offset : Z)
| call_ocsd_dt_process_data (h : dcd_tree_handle_t)
    (op : ocsd_datapath_op_t) (index : Z) (data_block_size : Z)
    (data : list Byte.byte)
| call_ocsd_destroy_dcd_tree (h : dcd_tree_handle_t)
| call_free_event_buf
| call_free_dec.

(** [snprintf (dec->error_msg, sizeof (dec->error_msg), ...)] keeps at most
    255 characters of the formatted text. *)
Definition snprintf_error_msg (dec : mtrace_opencsd_decoder_t)
    (text : string) : mtrace_opencsd_decoder_t :=
  set_error_msg dec (String.substring 0 255 text).

(* ---------------------------------------------------------------------- *)
(** ** OpenCSD generic element callback *)

(** The [switch] of [gen_elem_callback]: the event built for [elem], or
    [None] where the [default] branch returns. *)
Definition gen_elem_event (elem : ocsd_generic_trace_elem)
  : option mtrace_cs_event_t :=
  let ev :=
    {| kind := kind zero_event; timestamp := elem_timestamp elem;
       from_addr := from_addr zero_event; to_addr := to_addr zero_event;
       cpu := cpu zero_event;
       exception_number := exception_number zero_event |} in
  match elem_type elem with
  | OCSD_GEN_TRC_ELEM_INSTR_RANGE =>
      let k :=
        match elem_last_instr_type elem with
        | OCSD_INSTR_BR_INDIRECT => MTRACE_CS_EVENT_RETURN
        | OCSD_INSTR_BR => MTRACE_CS_EVENT_CALL
        | _ => MTRACE_CS_EVENT_INSTRUCTION_RANGE
        end in
      Some {| kind := k; timestamp := timestamp ev;
              from_addr := elem_st_addr elem; to_addr := elem_en_addr elem;
              cpu := to_int (elem_context_ctxt_id elem);
              exception_number := exception_number ev |}
  | OCSD_GEN_TRC_ELEM_TRACE_ON =>
      Some {| kind := MTRACE_CS_EVENT_TRACE_ON; timestamp := timestamp ev;
              from_addr := elem_st_addr elem; to_addr := to_addr ev;
              cpu := cpu ev; exception_number := exception_number ev |}
  | OCSD_GEN_TRC_ELEM_TRACE_OFF =>
      Some {| kind := MTRACE_CS_EVENT_TRACE_OFF; timestamp := timestamp ev;
              from_addr := elem_st_addr elem; to_addr := to_addr ev;
              cpu := cpu ev; exception_number := exception_number ev |}
  | OCSD_GEN_TRC_ELEM_EXCEPTION =>
      Some {| kind := MTRACE_CS_EVENT_EXCEPTION; timestamp := timestamp ev;
              from_addr := elem_st_addr elem; to_addr := to_addr ev;
              cpu := cpu ev;
              exception_number := to_uint32 (elem_exception_number elem) |}
  | OCSD_GEN_TRC_ELEM_EXCEPTION_RET =>
      Some {| kind := MTRACE_CS_EVENT_EXCEPTION_RET;
              timestamp := timestamp ev;
              from_addr := elem_st_addr elem; to_addr := to_addr ev;
              cpu := cpu ev; exception_number := exception_number ev |}
  | _ => None
  end.

Definition alloc_failed_msg : string :=
  "opencsd: event buffer allocation failed"%string.

(** [gen_elem_callback]; [a] is the allocator's answer should the push have
    to grow the buffer. *)
Definition gen_elem_callback (dec : mtrace_opencsd_decoder_t)
    (elem : ocsd_generic_trace_elem) (a : realloc_answer)
  : mtrace_opencsd_decoder_t * ocsd_datapath_resp_t :=
  match gen_elem_event elem with
  | None => (dec, OCSD_RESP_CONT)
  | Some ev =>
      let '(dec, rc) := event_buf_push dec ev a in
      if negb (rc =? 0) then
        (set_error_flag (snprintf_error_msg dec alloc_failed_msg) 1,
         OCSD_RESP_FATAL_SYS_ERR)
      else (dec, OCSD_RESP_CONT)
  end.

(* ---------------------------------------------------------------------- *)
(** ** Public API *)

(** What the environment answers during one [mtrace_opencsd_create]. *)
Record create_env : Type := mk_create_env {
  env_calloc_ok : bool;                 (* calloc of the session record *)
  env_malloc : realloc_answer;          (* malloc of the 256 slots *)
  env_dcd_tree : dcd_tree_handle_t;     (* ocsd_create_dcd_tree *)
  env_decoder_err : ocsd_err_t          (* ocsd_dt_create_decoder *)
}.

(** What the engine does during one [ocsd_dt_process_data]: the elements it
    hands to the callback, each with the allocator's answer at that moment,
    the error code it returns and the byte count it stores. *)
Record engine_reply : Type := mk_engine_reply {
  reply_elems : list (ocsd_generic_trace_elem * realloc_answer);
  reply_err : ocsd_err_t;
  reply_bytes_used : Z                  (* uint32_t *)
}.

(** The engine calls the callback installed by
    [ocsd_dt_set_gen_elem_outfn] once per element and stops at the first
    response that is not [OCSD_RESP_CONT]. *)
Fixpoint deliver_elems (dec : mtrace_opencsd_decoder_t)
    (elems : list (ocsd_generic_trace_elem * realloc_answer))
  : mtrace_opencsd_decoder_t :=
  match elems with
  | [] => dec
  | (elem, a) :: rest =>
      match gen_elem_callback dec elem a with
      | (dec, OCSD_RESP_CONT) => deliver_elems dec rest
      | (dec, OCSD_RESP_FATAL_SYS_ERR) => dec
      end
  end.

(** [printf]'s [%llu]. *)
Definition decimal (z : Z) : string :=
  NilZero.string_of_uint (N.to_uint (Z.to_N z)).

(** OCaml's [('a, string) result]. *)
Inductive caml_result (A : Type) : Type :=
| Ok (v : A)
| Error (msg : string).
Arguments Ok {A} v.
Arguments Error {A} msg.

Section Binding.

(** [ocsd_err_str], the engine's rendering of an error code. *)
Variable ocsd_err_str : ocsd_err_t -> string.

(** The decoder name and configuration selected by [arch_version]. *)
Definition select_decoder (arch_version : Z)
  : builtin_decoder * decoder_cfg :=
  if arch_version =? 3 then (OCSD_BUILTIN_DCD_ETMV3, ocsd_etmv3_cfg 0)
  else
    (if arch_version =? 5 then OCSD_BUILTIN_DCD_ETE
     else OCSD_BUILTIN_DCD_ETMV4I,
     ocsd_etmv4_cfg 0x28000ea1 0x4100f403 0x00000488 0 0x000000c1).

(** [mtrace_opencsd_create]: the returned pointer ([None] for [NULL]) and
    the calls made. *)
Definition mtrace_opencsd_create (protocol trace_id arch_version : Z)
    (env : create_env)
  : option mtrace_opencsd_decoder_t * list extern_call :=
  if negb (env_calloc_ok env) then (None, [])
  else
    let cap := 256 in
    match env_malloc env with
    | None => (None, [call_free_dec])
    | Some junk =>
        let dec :=
          {| dcd_tree := env_dcd_tree env;
             event_buf := junk <$> seq 0 (Z.to_nat cap);
             event_buf_cap := cap;
             event_buf_head := 0; event_buf_tail := 0;
             error_flag := 0; error_msg := EmptyString |} in
        if dcd_tree dec =? C_API_INVALID_TREE_HANDLE then
          (None, [call_ocsd_create_dcd_tree; call_free_event_buf;
                  call_free_dec])
        else
          let '(decoder_name, decoder_cfg) := select_decoder arch_version in
          let calls :=
            [call_ocsd_create_dcd_tree;
             call_ocsd_dt_set_gen_elem_outfn (dcd_tree dec);
             call_ocsd_dt_create_decoder (dcd_tree dec) decoder_name
                                         decoder_cfg] in
          let err := env_decoder_err env in
          if negb (ocsd_err_eqb err OCSD_OK) then
            (Some (set_error_flag
                     (snprintf_error_msg dec
                        (String.append
                           "opencsd: ocsd_dt_create_decoder failed: "
                           (ocsd_err_str err)))
                     1),
             calls)
            (* Still return dec; caller can check error state. *)
          else (Some dec, calls)
    end.

(** [mtrace_opencsd_add_image]; [err] is the engine's answer to the
    registration. *)
Definition mtrace_opencsd_add_image (dec : mtrace_opencsd_decoder_t)
    (filename : string) (load_address offset size : Z) (err : ocsd_err_t)
  : mtrace_opencsd_decoder_t * Z * list extern_call :=
  let calls :=
    [call_ocsd_dt_add_named_mem_acc (dcd_tree dec) load_address
       (to_uint64 (load_address + size - 1)) filename offset] in
  if negb (ocsd_err_eqb err OCSD_OK) then
    (snprintf_error_msg dec
       (String.append "opencsd: add_named_mem_acc failed for "
          (String.append filename
             (String.append ": " (ocsd_err_str err)))),
     -1, calls)
  else (dec, 0, calls).

(** [mtrace_opencsd_decode]. *)
Definition mtrace_opencsd_decode (dec : mtrace_opencsd_decoder_t)
    (data : list Byte.byte) (data_len data_index : Z) (reply : engine_reply)
  : mtrace_opencsd_decoder_t * Z * list extern_call :=
  if negb (error_flag dec =? 0) then (dec, -1, [])
  else
    let calls :=
      [call_ocsd_dt_process_data (dcd_tree dec) OCSD_OP_DATA data_index
         (to_uint32 data_len) data] in
    let dec := deliver_elems dec (reply_elems reply) in
    let bytes_used := reply_bytes_used reply in
    let err := reply_err reply in
    if negb (ocsd_err_eqb err OCSD_OK)
       && negb (ocsd_err_eqb err OCSD_ERR_UNSUPP_DECODE_PKT) then
      (set_error_flag
         (snprintf_error_msg dec
            (String.append "opencsd: decode error at index "
               (String.append (decimal data_index)
                  (String.append ": " (ocsd_err_str err)))))
         1,
       -1, calls)
    else (dec, to_int bytes_used, calls).

(** [mtrace_opencsd_flush]. *)
Definition mtrace_opencsd_flush (dec : mtrace_opencsd_decoder_t)
    (reply : engine_reply)
  : mtrace_opencsd_decoder_t * Z * list extern_call :=
  if negb (error_flag dec =? 0) then (dec, -1, [])
  else
    let calls :=
      [call_ocsd_dt_process_data (dcd_tree dec) OCSD_OP_FLUSH 0 0 []] in
    let dec := deliver_elems dec (reply_elems reply) in
    let err := reply_err reply in
    (dec,
     if ocsd_err_eqb err OCSD_OK || ocsd_err_eqb err OCSD_ERR_FLUSH_COMPLETE
     then 0 else -1,
     calls).

Definition mtrace_opencsd_next_event (dec : mtrace_opencsd_decoder_t)
  : mtrace_opencsd_decoder_t * Z * option mtrace_cs_event_t :=
  event_buf_pop dec.

Definition mtrace_opencsd_has_error (dec : mtrace_opencsd_decoder_t) : Z :=
  error_flag dec.

Definition mtrace_opencsd_error_msg (dec : mtrace_opencsd_decoder_t)
  : string :=
  error_msg dec.

(** [mtrace_opencsd_destroy]; [None] is the null pointer. *)
Definition mtrace_opencsd_destroy (dec : option mtrace_opencsd_decoder_t)
  : list extern_call :=
  match dec with
  | None => []
  | Some dec =>
      (if negb (dcd_tree dec =? C_API_INVALID_TREE_HANDLE)
       then [call_ocsd_destroy_dcd_tree (dcd_tree dec)] else [])
        ++ [call_free_event_buf; call_free_dec]
  end.

(* ---------------------------------------------------------------------- *)
(** ** The stubs' results ([opencsd_stubs.c]) *)


Definition caml_mtrace_opencsd_decode (dec : mtrace_opencsd_decoder_t)
    (data : list Byte.byte) (off len index : Z) (reply : engine_reply)
  : mtrace_opencsd_decoder_t * caml_result Z * list extern_call :=
  let '(dec, consumed, calls) :=
    mtrace_opencsd_decode dec (drop (Z.to_nat off) data) (to_uint64 len)
      (to_uint64 index) reply in
  (dec,
   if consumed <? 0 then Error (mtrace_opencsd_error_msg dec)
   else Ok consumed,
   calls).

Definition caml_mtrace_opencsd_flush (dec : mtrace_opencsd_decoder_t)
    (reply : engine_reply)
  : mtrace_opencsd_decoder_t * caml_result unit * list extern_call :=
  let '(dec, rc, calls) := mtrace_opencsd_flush dec reply in
  (dec,
   if negb (rc =? 0) then Error (mtrace_opencsd_error_msg dec) else Ok tt,
   calls).

Definition caml_mtrace_opencsd_has_error (dec : mtrace_opencsd_decoder_t)
  : bool :=
  negb (mtrace_opencsd_has_error dec =? 0).

End Binding.

(* ---------------------------------------------------------------------- *)
(** ** The queue as a sequence *)

(** The slots [i], ..., [j - 1] of the block. *)
Definition slice (buf : list mtrace_cs_event_t) (i j : Z)
  : list mtrace_cs_event_t :=
  take (Z.to_nat (j - i)) (drop (Z.to_nat i) buf).

(** The live region, oldest event first: from [tail] up to [head], going
    round the end of the block when [head] is below [tail]. *)
Definition queue_contents (dec : mtrace_opencsd_decoder_t)
  : list mtrace_cs_event_t :=
  if event_buf_head dec <? event_buf_tail dec then
    slice (event_buf dec) (event_buf_tail dec) (event_buf_cap dec)
      ++ slice (event_buf dec) 0 (event_buf_head dec)
  else slice (event_buf dec) (event_buf_tail dec) (event_buf_head dec).

(** The representation invariant of the ring: the block has [cap] slots and
    is an object the allocator has handed out, and both indices are inside
    it. *)
Definition queue_wf (dec : mtrace_opencsd_decoder_t) : Prop :=
  0 < event_buf_cap dec /\
  Z.of_nat (length (event_buf dec)) = event_buf_cap dec /\
  event_buf_cap dec * sizeof_event <= PTRDIFF_MAX /\
  0 <= event_buf_head dec < event_buf_cap dec /\
  0 <= event_buf_tail dec < event_buf_cap dec.

(** Two sessions with the same queue. *)
Definition same_queue (d1 d2 : mtrace_opencsd_decoder_t) : Prop :=
  event_buf d1 = event_buf d2 /\
  event_buf_cap d1 = event_buf_cap d2 /\
  event_buf_head d1 = event_buf_head d2 /\
  event_buf_tail d1 = event_buf_tail d2.

(** One step of a queue workload. *)
Inductive queue_op : Type :=
| op_push (ev : mtrace_cs_event_t) (a : realloc_answer)
| op_pop.

(** What a step was seen to do. *)
Inductive queue_obs : Type :=
| obs_pushed (ev : mtrace_cs_event_t)          (* push returned 0 *)
| obs_push_failed (ev : mtrace_cs_event_t)     (* push returned -1 *)
| obs_popped (ev : mtrace_cs_event_t)          (* pop returned 1 *)
| obs_pop_empty.                               (* pop returned 0 *)

Definition queue_step (dec : mtrace_opencsd_decoder_t) (op : queue_op)
  : mtrace_opencsd_decoder_t * queue_obs :=
  match op with
  | op_push ev a =>
      let '(dec', rc) := event_buf_push dec ev a in
      (dec', if rc =? 0 then obs_pushed ev else obs_push_failed ev)
  | op_pop =>
      match event_buf_pop dec with
      | (dec', _, Some ev) => (dec', obs_popped ev)
      | (dec', _, None) => (dec', obs_pop_empty)
      end
  end.

Fixpoint queue_run (dec : mtrace_opencsd_decoder_t) (ops : list queue_op)
  : mtrace_opencsd_decoder_t * list queue_obs :=
  match ops with
  | [] => (dec, [])
  | op :: ops =>
      let '(dec1, o) := queue_step dec op in
      let '(dec2, os) := queue_run dec1 ops in
      (dec2, o :: os)
  end.

(** The values of the pushes that returned 0, and the values the pops
    returned, each in the order of the run. *)
Fixpoint pushed_values (os : list queue_obs) : list mtrace_cs_event_t :=
  match os with
  | [] => []
  | obs_pushed ev :: os => ev :: pushed_values os
  | _ :: os => pushed_values os
  end.

Fixpoint popped_values (os : list queue_obs) : list mtrace_cs_event_t :=
  match os with
  | [] => []
  | obs_popped ev :: os => ev :: popped_values os
  | _ :: os => popped_values os
  end.



(** [n] calls of [mtrace_opencsd_next_event], with the events they
    returned. *)
Fixpoint drain (n : nat) (dec : mtrace_opencsd_decoder_t)
  : mtrace_opencsd_decoder_t * list mtrace_cs_event_t :=
  match n with
  | O => (dec, [])
  | S n =>
      match mtrace_opencsd_next_event dec with
      | (dec', _, Some ev) =>
          let '(dec'', evs) := drain n dec' in (dec'', ev :: evs)
      | (dec', _, None) => (dec', [])
      end
  end.

(** The fields of the session outside the queue. *)
Definition same_session_state (d1 d2 : mtrace_opencsd_decoder_t) : Prop :=
  dcd_tree d1 = dcd_tree d2 /\
  error_flag d1 = error_flag d2 /\
  error_msg d1 = error_msg d2.


(** A small queue for the examples: four slots of stale data. *)
Definition sample_event (n : Z) : mtrace_cs_event_t :=
  {| kind := MTRACE_CS_EVENT_CALL; timestamp := n; from_addr := 0x1000;
     to_addr := 0x1010; cpu := 0; exception_number := 0 |}.

Definition sample_junk : realloc_answer := Some (fun _ => sample_event 99).

Definition sample_queue : mtrace_opencsd_decoder_t :=
  {| dcd_tree := 1; event_buf := repeat (sample_event 77) 4;
     event_buf_cap := 4; event_buf_head := 0; event_buf_tail := 0;
     error_flag := 0; error_msg := EmptyString |}.

(** Three pushes, two pops, then eight pushes: the fourth and fifth push
    wrap the head round the end of the four slots, the sixth doubles the
    block while the live region is wrapped, the tenth doubles it again;
    nine pops follow. *)
Definition sample_ops : list queue_op :=
  (((fun n => op_push (sample_event n) sample_junk) <$> [1; 2; 3])
     ++ [op_pop; op_pop])
    ++ ((fun n => op_push (sample_event n) sample_junk)
          <$> [4; 5; 6; 7; 8; 9; 10; 11])
    ++ repeat op_pop 9.

(** A full queue: three events in four slots, the live region wrapped. *)
Definition sample_full_queue : mtrace_opencsd_decoder_t :=
  fst (queue_run sample_queue (take 7 sample_ops)).


(* ---------------------------------------------------------------------- *)
(** ** The classifier's mapping rules, in the specification's words *)

(** An event of the specification's data model: its kind, with the fields
    that kind carries. *)
Inductive spec_event : Type :=
| InstructionRange (from to : Z)
| Call (from to : Z)
| Return (from to : Z)
| TraceOn (from : Z)
| TraceOff (from : Z)
| Exception (from number : Z)
| ExceptionReturn (from : Z).

(** How a flat event record reads as an event of the data model. *)
Definition event_view (ev : mtrace_cs_event_t) : spec_event :=
  match kind ev with
  | MTRACE_CS_EVENT_INSTRUCTION_RANGE =>
      InstructionRange (from_addr ev) (to_addr ev)
  | MTRACE_CS_EVENT_CALL => Call (from_addr ev) (to_addr ev)
  | MTRACE_CS_EVENT_RETURN => Return (from_addr ev) (to_addr ev)
  | MTRACE_CS_EVENT_TRACE_ON => TraceOn (from_addr ev)
  | MTRACE_CS_EVENT_TRACE_OFF => TraceOff (from_addr ev)
  | MTRACE_CS_EVENT_EXCEPTION =>
      Exception (from_addr ev) (exception_number ev)
  | MTRACE_CS_EVENT_EXCEPTION_RET => ExceptionReturn (from_addr ev)
  end.

(** The seven rules: an instruction range ending in an indirect branch is a
    [Return], one ending in a direct branch a [Call], any other an
    [InstructionRange]; trace-on, trace-off, exception (with the engine's
    number) and exception-return map to their events; every other element
    kind is dropped. *)
Definition classifier_rule (elem : ocsd_generic_trace_elem)
  : option spec_event :=
  match elem_type elem, elem_last_instr_type elem with
  | OCSD_GEN_TRC_ELEM_INSTR_RANGE, OCSD_INSTR_BR_INDIRECT =>
      Some (Return (elem_st_addr elem) (elem_en_addr elem))
  | OCSD_GEN_TRC_ELEM_INSTR_RANGE, OCSD_INSTR_BR =>
      Some (Call (elem_st_addr elem) (elem_en_addr elem))
  | OCSD_GEN_TRC_ELEM_INSTR_RANGE, _ =>
      Some (InstructionRange (elem_st_addr elem) (elem_en_addr elem))
  | OCSD_GEN_TRC_ELEM_TRACE_ON, _ => Some (TraceOn (elem_st_addr elem))
  | OCSD_GEN_TRC_ELEM_TRACE_OFF, _ => Some (TraceOff (elem_st_addr elem))
  | OCSD_GEN_TRC_ELEM_EXCEPTION, _ =>
      Some (Exception (elem_st_addr elem) (elem_exception_number elem))
  | OCSD_GEN_TRC_ELEM_EXCEPTION_RET, _ =>
      Some (ExceptionReturn (elem_st_addr elem))
  | _, _ => None
  end.

(* ---------------------------------------------------------------------- *)
(** ** Sessions driven through the public API *)

Inductive api_call : Type :=
| api_add_image (filename : string) (load_address offset size : Z)
    (err : ocsd_err_t)
| api_decode (data : list Byte.byte) (data_len data_index : Z)
    (reply : engine_reply)
| api_flush (reply : engine_reply)
| api_next_event
| api_has_error
| api_error_msg.

Inductive api_ret : Type :=
| ret_int (rc : Z)
| ret_event (rc : Z) (out : option mtrace_cs_event_t)
| ret_msg (msg : string).

(** What one call was seen to do: its result, the calls it made outside the
    binding, and what [mtrace_opencsd_has_error] answers after it. *)
Record api_obs : Type := mk_api_obs {
  obs_ret : api_ret;
  obs_extern : list extern_call;
  obs_has_error : Z
}.

Section Session.

Variable ocsd_err_str : ocsd_err_t -> string.

Definition api_step (dec : mtrace_opencsd_decoder_t) (c : api_call)
  : mtrace_opencsd_decoder_t * api_ret * list extern_call :=
  match c with
  | api_add_image filename load_address offset size err =>
      let '(dec', rc, calls) :=
        mtrace_opencsd_add_image ocsd_err_str dec filename load_address
          offset size err in
      (dec', ret_int rc, calls)
  | api_decode data data_len data_index reply =>
      let '(dec', rc, calls) :=
        mtrace_opencsd_decode ocsd_err_str dec data data_len data_index
          reply in
      (dec', ret_int rc, calls)
  | api_flush reply =>
      let '(dec', rc, calls) := mtrace_opencsd_flush dec reply in
      (dec', ret_int rc, calls)
  | api_next_event =>
      let '(dec', rc, out) := mtrace_opencsd_next_event dec in
      (dec', ret_event rc out, [])
  | api_has_error => (dec, ret_int (mtrace_opencsd_has_error dec), [])
  | api_error_msg => (dec, ret_msg (mtrace_opencsd_error_msg dec), [])
  end.

Fixpoint session_run (dec : mtrace_opencsd_decoder_t)
    (calls : list api_call) : mtrace_opencsd_decoder_t * list api_obs :=
  match calls with
  | [] => (dec, [])
  | c :: calls =>
      let '(dec1, r, ext) := api_step dec c in
      let '(dec2, obs) := session_run dec1 calls in
      (dec2,
       {| obs_ret := r; obs_extern := ext;
          obs_has_error := mtrace_opencsd_has_error dec1 |} :: obs)
  end.

End Session.

(** A call that asks the engine to process data. *)
Definition is_feed (c : api_call) : bool :=
  match c with
  | api_decode _ _ _ _ | api_flush _ => true
  | _ => false
  end.

(* ---------------------------------------------------------------------- *)
(** ** Sample inputs *)

(** A rendering of the engine's error codes for the examples; the theorems
    hold for every rendering. *)
Definition sample_err_str (e : ocsd_err_t) : string :=
  match e with
  | OCSD_OK => "OCSD_OK"
  | OCSD_ERR_UNSUPP_DECODE_PKT => "OCSD_ERR_UNSUPP_DECODE_PKT"
  | OCSD_ERR_FLUSH_COMPLETE => "OCSD_ERR_FLUSH_COMPLETE"
  | OCSD_ERR_other code => String.append "OCSD_ERR " (decimal code)
  end%string.

(** An environment in which every allocation and the engine succeed, one in
    which the decode tree cannot be created, and one in which the tree is
    created and the decoder is refused. *)
Definition sample_env : create_env :=
  {| env_calloc_ok := true; env_malloc := Some (fun _ => zero_event);
     env_dcd_tree := 1; env_decoder_err := OCSD_OK |}.

Definition sample_env_no_tree : create_env :=
  {| env_calloc_ok := true; env_malloc := Some (fun _ => zero_event);
     env_dcd_tree := C_API_INVALID_TREE_HANDLE;
     env_decoder_err := OCSD_OK |}.

Definition sample_env_no_decoder : create_env :=
  {| env_calloc_ok := true; env_malloc := Some (fun _ => zero_event);
     env_dcd_tree := 1; env_decoder_err := OCSD_ERR_other 7 |}.

(** The session [mtrace_opencsd_create] returns in [sample_env]. *)
Definition sample_session : mtrace_opencsd_decoder_t :=
  {| dcd_tree := 1; event_buf := repeat zero_event 256;
     event_buf_cap := 256; event_buf_head := 0; event_buf_tail := 0;
     error_flag := 0; error_msg := EmptyString |}.

(** A session holding two events whose error was latched by a decode
    call. *)
Definition sample_errored_session : mtrace_opencsd_decoder_t :=
  {| dcd_tree := 1;
     event_buf := [sample_event 1; sample_event 2] ++ repeat zero_event 254;
     event_buf_cap := 256; event_buf_head := 2; event_buf_tail := 0;
     error_flag := 1;
     error_msg := "opencsd: decode error at index 64: OCSD_ERR 3" |}.

(** The engine refusing the data with a fatal code, no element delivered. *)
Definition sample_fatal_reply : engine_reply :=
  {| reply_elems := []; reply_err := OCSD_ERR_other 3;
     reply_bytes_used := 0 |}.

Definition sample_elem (t : ocsd_gen_trc_elem_t) (i : ocsd_instr_type)
  : ocsd_generic_trace_elem :=
  {| elem_type := t; elem_last_instr_type := i;
     elem_st_addr := 0x1000; elem_en_addr := 0x1010;
     elem_context_ctxt_id := 3; elem_exception_number := 11;
     elem_timestamp := 500 |}.

(** A workload on an errored session: drain one event, try to feed, register
    an image the engine refuses, flush, read the error state. *)
Definition sample_calls : list api_call :=
  [api_next_event;
   api_decode [] 16 64 sample_fatal_reply;
   api_add_image "a.out" 0x400000 0 0x10000 (OCSD_ERR_other 5);
   api_flush sample_fatal_reply;
   api_has_error; api_error_msg].

(* ---------------------------------------------------------------------- *)
(** ** The remaining stubs ([opencsd_stubs.c]) *)

(** [(int64_t)z], the value [caml_copy_int64] boxes for a [uint64_t]. *)
Definition to_int64 (z : Z) : Z := (z + 2 ^ 63) mod 2 ^ 64 - 2 ^ 63.

(** A stub either returns a value or raises [Failure] through
    [caml_failwith]. *)
Inductive caml_outcome (A : Type) : Type :=
| Returned (v : A)
| Failure (msg : string).
Arguments Returned {A} v.
Arguments Failure {A} msg.

(** The OCaml record [Event.t] the stub fills in, field by field. *)
Record caml_event : Type := mk_caml_event {
  EVENT_FIELD_KIND : Z;          (* int *)
  EVENT_FIELD_TIMESTAMP : Z;     (* int64 *)
  EVENT_FIELD_FROM_ADDR : Z;     (* int64 *)
  EVENT_FIELD_TO_ADDR : Z;       (* int64 *)
  EVENT_FIELD_CPU : Z;           (* int *)
  EVENT_FIELD_EXNO : Z           (* int *)
}.

(** The [Store_field] sequence of [caml_mtrace_opencsd_next_event]. *)
Definition caml_event_of (ev : mtrace_cs_event_t) : caml_event :=
  {| EVENT_FIELD_KIND := to_int (kind_value (kind ev));
     EVENT_FIELD_TIMESTAMP := to_int64 (timestamp ev);
     EVENT_FIELD_FROM_ADDR := to_int64 (from_addr ev);
     EVENT_FIELD_TO_ADDR := to_int64 (to_addr ev);
     EVENT_FIELD_CPU := cpu ev;
     EVENT_FIELD_EXNO := to_int (exception_number ev) |}.

(** [caml_mtrace_opencsd_next_event]: [None] when the queue gave nothing. *)
Definition caml_mtrace_opencsd_next_event (dec : mtrace_opencsd_decoder_t)
  : mtrace_opencsd_decoder_t * option caml_event :=
  let '(dec, got, ev) := mtrace_opencsd_next_event dec in
  if got =? 0 then (dec, None)
  else (dec, Some (caml_event_of (default zero_event ev))).

Section Stubs.

Variable ocsd_err_str : ocsd_err_t -> string.

(** [caml_mtrace_opencsd_create]: the three OCaml integers are narrowed to
    [int], [uint8_t] and [int]. *)
Definition caml_mtrace_opencsd_create (v_protocol v_trace_id v_arch : Z)
    (env : create_env)
  : caml_outcome mtrace_opencsd_decoder_t * list extern_call :=
  let protocol := to_int v_protocol in
  let trace_id := v_trace_id mod 2 ^ 8 in
  let arch := to_int v_arch in
  match mtrace_opencsd_create ocsd_err_str protocol trace_id arch env with
  | (None, calls) => (Failure "opencsd_create: allocation failed", calls)
  | (Some dec, calls) => (Returned dec, calls)
  end.

End Stubs.

Definition caml_mtrace_opencsd_error_msg (dec : mtrace_opencsd_decoder_t)
  : string :=
  mtrace_opencsd_error_msg dec.

(** [decoder_finalize]: what the collector runs on the custom block. *)
Definition decoder_finalize (v : option mtrace_opencsd_decoder_t)
  : list extern_call :=
  match v with
  | Some dec => mtrace_opencsd_destroy (Some dec)
  | None => []
  end.

(* ---------------------------------------------------------------------- *)
(** ** Further vocabulary for the properties *)

(** The fields of an event hold values of their C types. *)
Definition event_in_range (ev : mtrace_cs_event_t) : Prop :=
  0 <= timestamp ev < 2 ^ 64 /\
  0 <= from_addr ev < 2 ^ 64 /\
  0 <= to_addr ev < 2 ^ 64 /\
  - 2 ^ 31 <= cpu ev < 2 ^ 31 /\
  0 <= exception_number ev < 2 ^ 32.

(** The events the classifier builds for a list of elements, in order. *)
Definition classified (elems : list ocsd_generic_trace_elem)
  : list mtrace_cs_event_t :=
  omap gen_elem_event elems.

(** Counting the releases in a list of calls. *)
Definition is_free_dec (c : extern_call) : bool :=
  match c with call_free_dec => true | _ => false end.

Definition is_free_event_buf (c : extern_call) : bool :=
  match c with call_free_event_buf => true | _ => false end.

Definition is_destroy_dcd_tree (c : extern_call) : bool :=
  match c with call_ocsd_destroy_dcd_tree _ => true | _ => false end.

Definition count_calls (p : extern_call -> bool) (calls : list extern_call)
  : nat :=
  length (List.filter p calls).

(** The error state a session can be in: the flag is 0 or 1, the message
    fits the 256-byte buffer with its terminator, and an errored session
    has a message. *)
Definition error_state_ok (dec : mtrace_opencsd_decoder_t) : Prop :=
  (error_flag dec = 0 \/ error_flag dec = 1) /\
  (String.length (error_msg dec) <= 255)%nat /\
  (error_flag dec = 1 -> error_msg dec <> EmptyString).

(** A file name longer than the message buffer. *)
Definition sample_long_name : string :=
  String.concat "" (repeat "0123456789abcdef"%string 20).

(** An engine reply with four elements, the second of a dropped kind. *)
Definition sample_reply : engine_reply :=
  {| reply_elems :=
       [(sample_elem OCSD_GEN_TRC_ELEM_TRACE_ON OCSD_INSTR_OTHER,
         sample_junk);
        (sample_elem OCSD_GEN_TRC_ELEM_TIMESTAMP OCSD_INSTR_OTHER,
         sample_junk);
        (sample_elem OCSD_GEN_TRC_ELEM_INSTR_RANGE OCSD_INSTR_BR,
         sample_junk);
        (sample_elem OCSD_GEN_TRC_ELEM_EXCEPTION OCSD_INSTR_OTHER,
         sample_junk)];
     reply_err := OCSD_OK; reply_bytes_used := 16 |}.


(* ====================================================================== *)
(** * Properties *)

(** ** Machine arithmetic inside its range *)

Lemma SIZE_WIDTH_eq : SIZE_WIDTH = 18446744073709551616.
Proof. reflexivity. Qed.

Lemma PTRDIFF_MAX_eq : PTRDIFF_MAX = 9223372036854775807.
Proof. reflexivity. Qed.

Lemma size_add_small a b :
  0 <= a + b < SIZE_WIDTH -> size_add a b = a + b.
Proof. intros H. unfold size_add. by apply Z.mod_small. Qed.

Lemma size_sub_small a b :
  0 <= a - b < SIZE_WIDTH -> size_sub a b = a - b.
Proof. intros H. unfold size_sub. by apply Z.mod_small. Qed.

Lemma size_mul_small a b :
  0 <= a * b < SIZE_WIDTH -> size_mul a b = a * b.
Proof. intros H. unfold size_mul. by apply Z.mod_small. Qed.

Lemma to_uint32_small z : 0 <= z < 2 ^ 32 -> to_uint32 z = z.
Proof. intros H. unfold to_uint32. by apply Z.mod_small. Qed.

(** The successor of an index, reduced modulo the capacity. *)
Lemma succ_mod_cap i cap :
  0 <= i < cap ->
  (i + 1) mod cap = if i + 1 =? cap then 0 else i + 1.
Proof.
  intros H. destruct (Z.eqb_spec (i + 1) cap) as [->|Hne].
  - apply Z_mod_same_full.
  - apply Z.mod_small. lia.
Qed.

(** ** Slices of the block *)

Section Slices.

Implicit Types (b e : list mtrace_cs_event_t) (x : mtrace_cs_event_t).

Lemma slice_nil b i j : j <= i -> slice b i j = [].
Proof.
  intros H. unfold slice. replace (Z.to_nat (j - i)) with O by lia.
  apply take_0.
Qed.

Lemma length_slice b i j :
  0 <= i <= j -> j <= Z.of_nat (length b) ->
  Z.of_nat (length (slice b i j)) = j - i.
Proof.
  intros Hi Hj. unfold slice. rewrite length_take, length_drop. lia.
Qed.

Lemma slice_cons b i j :
  0 <= i < j -> j <= Z.of_nat (length b) ->
  slice b i j = slot_read b i :: slice b (i + 1) j.
Proof.
  intros Hi Hj. unfold slice, slot_read.
  destruct (lookup_lt_is_Some_2 b (Z.to_nat i)) as [x Hx]; [lia|].
  rewrite Hx. simpl.
  rewrite (drop_S _ _ _ Hx).
  replace (Z.to_nat (j - i)) with (S (Z.to_nat (j - (i + 1)))) by lia.
  replace (Z.to_nat (i + 1)) with (S (Z.to_nat i)) by lia.
  reflexivity.
Qed.

Lemma slice_write_end b i h x :
  0 <= i <= h -> h < Z.of_nat (length b) ->
  slice (slot_write b h x) i (h + 1) = slice b i h ++ [x].
Proof.
  intros Hi Hh. unfold slice, slot_write.
  replace (Z.to_nat (h + 1 - i)) with (S (Z.to_nat (h - i))) by lia.
  rewrite drop_insert_ge by lia.
  replace (Z.to_nat h - Z.to_nat i)%nat with (Z.to_nat (h - i)) by lia.
  erewrite take_S_r.
  - rewrite take_insert_ge by lia. reflexivity.
  - apply list_lookup_insert_eq. rewrite length_drop. lia.
Qed.

Lemma slice_write_outside b i j h x :
  0 <= i -> 0 <= h -> h < i \/ j <= h ->
  slice (slot_write b h x) i j = slice b i j.
Proof.
  intros Hi Hh Hout. unfold slice, slot_write.
  destruct (Z.lt_ge_cases h i) as [Hlt|Hge].
  - rewrite drop_insert_lt by lia. reflexivity.
  - rewrite drop_insert_ge by lia. rewrite take_insert_ge by lia.
    reflexivity.
Qed.

Lemma slice_app_l b e i j :
  0 <= i -> j <= Z.of_nat (length b) ->
  slice (b ++ e) i j = slice b i j.
Proof.
  intros Hi Hj. destruct (Z.le_gt_cases j i) as [Hle|Hgt].
  - by rewrite !slice_nil.
  - unfold slice. rewrite drop_app_le by lia.
    rewrite take_app_le; [reflexivity|]. rewrite length_drop. lia.
Qed.

Lemma length_memmove b d s n :
  0 <= d -> 0 <= s -> 0 <= n ->
  d + n <= Z.of_nat (length b) -> s + n <= Z.of_nat (length b) ->
  length (memmove b d s n) = length b.
Proof.
  intros Hd Hs Hn Hdn Hsn. unfold memmove.
  rewrite !length_app, !length_take, !length_drop. lia.
Qed.

Lemma slice_memmove_dst b d s n :
  0 <= d -> 0 <= s -> 0 <= n ->
  d + n <= Z.of_nat (length b) -> s + n <= Z.of_nat (length b) ->
  slice (memmove b d s n) d (d + n) = slice b s (s + n).
Proof.
  intros Hd Hs Hn Hdn Hsn. unfold slice, memmove.
  rewrite drop_app_length' by (rewrite length_take; lia).
  replace (Z.to_nat (d + n - d)) with (Z.to_nat n) by lia.
  replace (Z.to_nat (s + n - s)) with (Z.to_nat n) by lia.
  rewrite take_app_length'; [reflexivity|].
  rewrite length_take, length_drop. lia.
Qed.

Lemma slice_memmove_below b d s n i j :
  0 <= i -> j <= d -> d <= Z.of_nat (length b) ->
  slice (memmove b d s n) i j = slice b i j.
Proof.
  intros Hi Hj Hd. unfold memmove.
  rewrite slice_app_l by (rewrite ?length_take; lia).
  destruct (Z.le_gt_cases j i) as [Hle|Hgt].
  - by rewrite !slice_nil.
  - unfold slice. rewrite take_drop_commute, take_take.
    rewrite (take_drop_commute b).
    f_equal. f_equal. lia.
Qed.

End Slices.

(** ** The allocator *)

Lemma realloc_None b bytes : realloc b bytes None = None.
Proof. reflexivity. Qed.

(** A successful doubling keeps the old block as a prefix and adds as many
    slots again; the doubled block is still an object of legal size. *)
Lemma realloc_double b cap a nb :
  Z.of_nat (length b) = cap -> 0 < cap ->
  cap * sizeof_event <= PTRDIFF_MAX ->
  realloc b (size_mul (size_mul cap 2) sizeof_event) a = Some nb ->
  size_mul cap 2 = cap * 2 /\
  cap * 2 * sizeof_event <= PTRDIFF_MAX /\
  exists e, nb = b ++ e /\ Z.of_nat (length e) = cap.
Proof.
  intros Hlen Hcap Hsz. rewrite PTRDIFF_MAX_eq in Hsz.
  unfold sizeof_event in *.
  assert (H2 : size_mul cap 2 = cap * 2)
    by (apply size_mul_small; rewrite SIZE_WIDTH_eq; lia).
  rewrite H2.
  rewrite size_mul_small by (rewrite SIZE_WIDTH_eq; lia).
  unfold realloc. destruct a as [junk|]; [|discriminate].
  destruct (Z.ltb_spec PTRDIFF_MAX (cap * 2 * 40)) as [|Hle]; [discriminate|].
  intros [= <-]. split; [reflexivity|]. split; [exact Hle|].
  unfold sizeof_event. rewrite Z.div_mul by lia.
  exists (junk <$> seq 0 (Z.to_nat (cap * 2) - length b)).
  assert (Hl : length (junk <$> seq 0 (Z.to_nat (cap * 2) - length b))
               = Z.to_nat cap)
    by (rewrite length_fmap, length_seq; lia).
  split; [|lia].
  apply take_ge. rewrite length_app, Hl. lia.
Qed.


(** ** Push and pop on the sequence *)

Lemma event_buf_push_spec dec ev a :
  queue_wf dec ->
  (event_buf_push dec ev a = (dec, -1)) \/
  (exists dec', event_buf_push dec ev a = (dec', 0) /\
     queue_wf dec' /\
     queue_contents dec' = queue_contents dec ++ [ev] /\
     same_session_state dec' dec).
Proof.
  destruct dec as [tree buf cap head tail flag msg].
  unfold queue_wf, queue_contents, same_session_state. simpl.
  intros (Hcap & Hlen & Hsz & Hh & Ht).
  assert (Hsz' := Hsz). rewrite PTRDIFF_MAX_eq in Hsz'.
  unfold sizeof_event in Hsz'.
  unfold event_buf_push. simpl.
  rewrite size_add_small by (rewrite SIZE_WIDTH_eq; lia).
  rewrite succ_mod_cap by lia.
  assert (Hgrow : forall nb,
    realloc buf (size_mul (size_mul cap 2) sizeof_event) a = Some nb ->
    size_mul cap 2 = cap * 2 /\ cap * 2 * 40 <= 9223372036854775807 /\
    exists e, nb = buf ++ e /\ Z.of_nat (length e) = cap).
  { intros nb Hre.
    destruct (realloc_double _ _ _ _ Hlen Hcap Hsz Hre) as (H2 & Hsz2 & He).
    rewrite PTRDIFF_MAX_eq in Hsz2. by unfold sizeof_event in Hsz2. }
  destruct (Z.eqb_spec (head + 1) cap) as [Hend|Hmid];
    (match goal with
     | |- context [?x =? tail] =>
         destruct (Z.eqb_spec x tail) as [Hfull|Hnf]
     end;
     [destruct (realloc buf (size_mul (size_mul cap 2) sizeof_event) a)
        as [nb|]; [|by left];
      destruct (Hgrow nb eq_refl) as (H2 & Hsz2 & e & -> & He);
      rewrite H2, (succ_mod_cap head (cap * 2)) by lia;
      destruct (Z.eqb_spec (head + 1) (cap * 2)) as [|_]; [lia|]
     |]);
    right.
  - (* full, linear: tail = 0 and head = cap - 1 *)
    destruct (Z.ltb_spec head tail) as [|_]; [lia|].
    eexists. split; [reflexivity|]. simpl.
    split; [|split; [|done]].
    + unfold slot_write, sizeof_event. rewrite PTRDIFF_MAX_eq.
      rewrite length_insert, length_app. lia.
    + destruct (Z.ltb_spec (head + 1) tail) as [|_]; [lia|].
      rewrite slice_write_end by (rewrite ?length_app; lia).
      by rewrite slice_app_l by lia.
  - (* room left, the head goes round to slot 0 *)
    eexists. split; [reflexivity|]. simpl.
    split; [|split; [|done]].
    + unfold slot_write. rewrite length_insert. lia.
    + destruct (Z.ltb_spec head tail) as [|_]; [lia|].
      destruct (Z.ltb_spec 0 tail) as [_|]; [|lia].
      rewrite (slice_nil _ 0 0) by lia. rewrite app_nil_r.
      rewrite <- Hend. apply slice_write_end; lia.
  - (* full, wrapped: head + 1 = tail *)
    destruct (Z.ltb_spec head tail) as [_|]; [|lia].
    rewrite (size_sub_small cap tail) by (rewrite SIZE_WIDTH_eq; lia).
    rewrite size_sub_small by (rewrite SIZE_WIDTH_eq; lia).
    replace (cap * 2 - (cap - tail)) with (cap + tail) by lia.
    eexists. split; [reflexivity|]. simpl.
    assert (Hmm : length (memmove (buf ++ e) (cap + tail) tail
                                  (cap - tail)) = length (buf ++ e))
      by (apply length_memmove; rewrite ?length_app; lia).
    split; [|split; [|done]].
    + unfold slot_write, sizeof_event. rewrite PTRDIFF_MAX_eq.
      rewrite length_insert, Hmm, length_app. lia.
    + destruct (Z.ltb_spec (head + 1) (cap + tail)) as [_|]; [|lia].
      rewrite slice_write_outside by lia.
      rewrite slice_write_end by (rewrite ?Hmm, ?length_app; lia).
      replace (cap * 2) with (cap + tail + (cap - tail)) at 1 by lia.
      rewrite slice_memmove_dst by (rewrite ?length_app; lia).
      rewrite slice_memmove_below by (rewrite ?length_app; lia).
      replace (tail + (cap - tail)) with cap by lia.
      rewrite !slice_app_l by lia.
      by rewrite <- app_assoc.
  - (* room left *)
    eexists. split; [reflexivity|]. simpl.
    split; [|split; [|done]].
    + unfold slot_write. rewrite length_insert. lia.
    + destruct (Z.ltb_spec head tail) as [Hwrap|Hlin].
      * destruct (Z.ltb_spec (head + 1) tail) as [_|]; [|lia].
        rewrite slice_write_outside by lia.
        rewrite slice_write_end by lia.
        by rewrite <- app_assoc.
      * destruct (Z.ltb_spec (head + 1) tail) as [|_]; [lia|].
        apply slice_write_end; lia.
Qed.

Lemma event_buf_pop_spec dec :
  queue_wf dec ->
  (queue_contents dec = [] /\ event_buf_pop dec = (dec, 0, None)) \/
  (exists x l dec',
     queue_contents dec = x :: l /\
     event_buf_pop dec = (dec', 1, Some x) /\
     queue_wf dec' /\
     queue_contents dec' = l /\
     same_session_state dec' dec).
Proof.
  destruct dec as [tree buf cap head tail flag msg].
  unfold queue_wf, queue_contents, same_session_state. simpl.
  intros (Hcap & Hlen & Hsz & Hh & Ht).
  assert (Hsz' := Hsz). rewrite PTRDIFF_MAX_eq in Hsz'.
  unfold sizeof_event in Hsz'.
  unfold event_buf_pop. simpl.
  destruct (Z.eqb_spec head tail) as [->|Hne].
  - left. rewrite Z.ltb_irrefl. split; [by apply slice_nil|done].
  - right.
    rewrite size_add_small by (rewrite SIZE_WIDTH_eq; lia).
    rewrite succ_mod_cap by lia.
    destruct (Z.ltb_spec head tail) as [Hwrap|Hlin].
    + rewrite (slice_cons buf tail cap) by lia.
      eexists _, _, _. split; [reflexivity|]. split; [reflexivity|]. simpl.
      destruct (Z.eqb_spec (tail + 1) cap) as [Hend|Hmid].
      * split; [lia|]. split; [|done].
        destruct (Z.ltb_spec head 0) as [|_]; [lia|].
        by rewrite (slice_nil buf (tail + 1) cap) by lia.
      * split; [lia|]. split; [|done].
        by destruct (Z.ltb_spec head (tail + 1)) as [_|]; [|lia].
    + rewrite (slice_cons buf tail head) by lia.
      eexists _, _, _. split; [reflexivity|]. split; [reflexivity|]. simpl.
      destruct (Z.eqb_spec (tail + 1) cap) as [|_]; [lia|].
      split; [lia|]. split; [|done].
      by destruct (Z.ltb_spec head (tail + 1)) as [|_]; [lia|].
Qed.

(** The queue is empty exactly when the two indices meet. *)
Lemma queue_contents_nil dec :
  queue_wf dec ->
  queue_contents dec = [] <-> event_buf_head dec = event_buf_tail dec.
Proof.
  intros Hwf. split.
  - intros Hnil.
    destruct (event_buf_pop_spec dec Hwf) as [[_ Hpop]|(x & l & d & Hc & _)];
      [|congruence].
    unfold event_buf_pop in Hpop.
    destruct (Z.eqb_spec (event_buf_head dec) (event_buf_tail dec));
      [done|discriminate].
  - intros Heq. unfold queue_contents. rewrite Heq, Z.ltb_irrefl.
    by apply slice_nil.
Qed.

(** ** Runs of pushes and pops *)

Lemma queue_step_spec dec op dec1 o :
  queue_wf dec -> queue_step dec op = (dec1, o) ->
  queue_wf dec1 /\ same_session_state dec1 dec /\
  match o with
  | obs_pushed ev => queue_contents dec1 = queue_contents dec ++ [ev]
  | obs_push_failed _ => dec1 = dec
  | obs_popped ev => queue_contents dec = ev :: queue_contents dec1
  | obs_pop_empty => queue_contents dec = [] /\ dec1 = dec
  end.
Proof.
  intros Hwf. destruct op as [ev a|]; simpl.
  - destruct (event_buf_push_spec dec ev a Hwf)
      as [->|(d & -> & Hwf' & Hc & Hs)]; simpl; intros [= <- <-]; done.
  - destruct (event_buf_pop_spec dec Hwf)
      as [[Hc ->]|(x & l & d & Hc & -> & Hwf' & Hc' & Hs)];
      intros [= <- <-]; [done|]. by rewrite Hc, Hc'.
Qed.




(** ** Occupancy of the ring *)

Lemma length_queue_contents dec :
  queue_wf dec ->
  Z.of_nat (length (queue_contents dec))
    = (event_buf_head dec - event_buf_tail dec) mod event_buf_cap dec.
Proof.
  destruct dec as [tree buf cap head tail flag msg].
  unfold queue_wf, queue_contents. simpl.
  intros (Hcap & Hlen & _ & Hh & Ht).
  destruct (Z.ltb_spec head tail) as [Hwrap|Hlin].
  - rewrite length_app, Nat2Z.inj_add, !length_slice by lia.
    rewrite <- (Z.mod_add _ 1 cap) by lia.
    rewrite Z.mod_small by lia. lia.
  - rewrite length_slice by lia. rewrite Z.mod_small by lia. lia.
Qed.

Lemma next_head_meets_tail dec :
  queue_wf dec ->
  size_add (event_buf_head dec) 1 mod event_buf_cap dec = event_buf_tail dec
  <-> Z.of_nat (length (queue_contents dec)) = event_buf_cap dec - 1.
Proof.
  intros Hwf. rewrite (length_queue_contents dec Hwf).
  destruct Hwf as (Hcap & _ & Hsz & Hh & Ht).
  rewrite PTRDIFF_MAX_eq in Hsz. unfold sizeof_event in Hsz.
  rewrite size_add_small by (rewrite SIZE_WIDTH_eq; lia).
  rewrite succ_mod_cap by lia.
  destruct (Z.eqb_spec (event_buf_head dec + 1) (event_buf_cap dec))
    as [Hend|Hmid];
    destruct (Z.lt_ge_cases (event_buf_head dec) (event_buf_tail dec))
      as [Hwrap|Hlin].
  - lia.
  - rewrite Z.mod_small by lia. lia.
  - rewrite <- (Z.mod_add _ 1 (event_buf_cap dec)) by lia.
    rewrite Z.mod_small by lia. lia.
  - rewrite Z.mod_small by lia. lia.
Qed.

Lemma event_buf_pop_frame dec :
  event_buf (fst (fst (event_buf_pop dec))) = event_buf dec /\
  event_buf_cap (fst (fst (event_buf_pop dec))) = event_buf_cap dec /\
  event_buf_head (fst (fst (event_buf_pop dec))) = event_buf_head dec.
Proof.
  unfold event_buf_pop.
  by destruct (event_buf_head dec =? event_buf_tail dec).
Qed.



Example sample_queue_wraps_then_grows :
  let after k := fst (queue_run sample_queue (take k sample_ops)) in
  (event_buf_cap (after 7%nat), event_buf_head (after 7%nat),
   event_buf_tail (after 7%nat)) = (4, 1, 2) /\
  (event_buf_cap (after 8%nat), event_buf_head (after 8%nat),
   event_buf_tail (after 8%nat)) = (8, 2, 6) /\
  timestamp <$> event_buf (after 8%nat) = [5; 6; 3; 4; 99; 99; 3; 4] /\
  timestamp <$> queue_contents (after 8%nat) = [3; 4; 5; 6] /\
  event_buf_cap (after 13%nat) = 16 /\
  timestamp <$> popped_values (snd (queue_run sample_queue sample_ops))
    = [1; 2; 3; 4; 5; 6; 7; 8; 9; 10; 11].
Proof. repeat split; reflexivity. Qed.

Lemma sample_queue_wf : queue_wf sample_queue.
Proof. repeat split; vm_compute; congruence. Qed.

(* ---------------------------------------------------------------------- *)
(** ** The event queue *)



(** C3.  Queue growth is atomic on allocation failure.  In every queue
    state in which the next head would meet the tail, so that push has to
    grow the buffer, a failed [realloc] makes push return -1 and hand back
    the session exactly as it was (block, capacity, head, tail and all
    other fields); the element is not written, and the queue pops as
    before. *)
Theorem push_growth_failure_atomic dec ev a :
  size_add (event_buf_head dec) 1 mod event_buf_cap dec
    = event_buf_tail dec ->
  realloc (event_buf dec)
          (size_mul (size_mul (event_buf_cap dec) 2) sizeof_event) a
    = None ->
  event_buf_push dec ev a = (dec, -1) /\
  queue_contents (fst (event_buf_push dec ev a)) = queue_contents dec /\
  event_buf_pop (fst (event_buf_push dec ev a)) = event_buf_pop dec.
Proof.
  intros Hfull Hre.
  assert (H : event_buf_push dec ev a = (dec, -1)).
  { unfold event_buf_push. rewrite Hfull, Z.eqb_refl, Hre. reflexivity. }
  by rewrite H.
Qed.

Lemma push_growth_failure_atomic_witness :
  event_buf_push sample_full_queue (sample_event 7) None
    = (sample_full_queue, -1) /\
  queue_contents
    (fst (event_buf_push sample_full_queue (sample_event 7) None))
    = queue_contents sample_full_queue /\
  event_buf_pop
    (fst (event_buf_push sample_full_queue (sample_event 7) None))
    = event_buf_pop sample_full_queue.
Proof.
  apply (push_growth_failure_atomic sample_full_queue (sample_event 7) None);
    vm_compute; reflexivity.
Defined.

(* ---------------------------------------------------------------------- *)
(** ** The element classifier *)

(** The [switch] of the callback computes the specification's rule. *)
Lemma gen_elem_event_view elem :
  elem_in_range elem ->
  event_view <$> gen_elem_event elem = classifier_rule elem.
Proof.
  intros (_ & _ & _ & Hexc & _).
  destruct elem as [t i st en ctxt exc ts]. simpl in Hexc.
  unfold gen_elem_event, classifier_rule, event_view.
  destruct t; simpl; try reflexivity.
  - by destruct i.
  - by rewrite to_uint32_small.
Qed.

(** A push that does not return 0 returns -1 and hands the session back
    untouched. *)
Lemma event_buf_push_failure dec ev a :
  snd (event_buf_push dec ev a) <> 0 -> event_buf_push dec ev a = (dec, -1).
Proof.
  unfold event_buf_push.
  destruct (_ =? event_buf_tail dec); [|done].
  destruct (realloc _ _ a); [|done].
  by destruct (event_buf_head dec <? event_buf_tail dec).
Qed.

Lemma snprintf_alloc_failed_msg dec :
  error_msg (snprintf_error_msg dec alloc_failed_msg) = alloc_failed_msg.
Proof. reflexivity. Qed.

(** What the callback does with the event it has built. *)
Lemma gen_elem_callback_push dec elem a ev :
  gen_elem_event elem = Some ev ->
  gen_elem_callback dec elem a =
    match event_buf_push dec ev a with
    | (dec', 0) => (dec', OCSD_RESP_CONT)
    | (dec', _) =>
        (set_error_flag (snprintf_error_msg dec' alloc_failed_msg) 1,
         OCSD_RESP_FATAL_SYS_ERR)
    end.
Proof.
  intros Hev. unfold gen_elem_callback. rewrite Hev.
  destruct (event_buf_push dec ev a) as [dec' rc]. by destruct rc.
Qed.

(** C2.  The element classifier maps decoded elements exactly per the seven
    rules.  For every session whose queue satisfies the ring invariant and
    every element with fields in the range of their C types: when the rules
    drop the element, the callback returns "continue" and the session is
    unchanged; when the rules give an event, the callback builds a record
    that reads as exactly that event (kind, from = st_addr, to = en_addr for
    the three range kinds, the engine's number for an exception) and, unless
    the push fails for lack of memory, appends it to the queue and returns
    "continue". *)
Theorem classifier_follows_rules dec elem a :
  queue_wf dec -> elem_in_range elem ->
  match classifier_rule elem with
  | None => gen_elem_callback dec elem a = (dec, OCSD_RESP_CONT)
  | Some sev =>
      exists ev,
        gen_elem_event elem = Some ev /\ event_view ev = sev /\
        ((exists dec',
            gen_elem_callback dec elem a = (dec', OCSD_RESP_CONT) /\
            queue_wf dec' /\
            queue_contents dec' = queue_contents dec ++ [ev]) \/
         (event_buf_push dec ev a = (dec, -1) /\
          snd (gen_elem_callback dec elem a) = OCSD_RESP_FATAL_SYS_ERR))
  end.
Proof.
  intros Hwf Hrange.
  rewrite <- (gen_elem_event_view elem Hrange).
  destruct (gen_elem_event elem) as [ev|] eqn:Hev; simpl.
  - exists ev. split; [done|]. split; [done|].
    rewrite (gen_elem_callback_push _ _ _ _ Hev).
    destruct (event_buf_push_spec dec ev a Hwf)
      as [->|(dec' & -> & Hwf' & Hc & _)]; [by right|].
    left. by exists dec'.
  - unfold gen_elem_callback. by rewrite Hev.
Qed.

Lemma sample_elem_in_range t i : elem_in_range (sample_elem t i).
Proof. repeat split; vm_compute; congruence. Qed.

Lemma classifier_follows_rules_witness :
  exists ev,
    gen_elem_event
      (sample_elem OCSD_GEN_TRC_ELEM_INSTR_RANGE OCSD_INSTR_BR_INDIRECT)
      = Some ev /\
    event_view ev = Return 0x1000 0x1010 /\
    ((exists dec',
        gen_elem_callback sample_queue
          (sample_elem OCSD_GEN_TRC_ELEM_INSTR_RANGE OCSD_INSTR_BR_INDIRECT)
          sample_junk = (dec', OCSD_RESP_CONT) /\
        queue_wf dec' /\
        queue_contents dec' = queue_contents sample_queue ++ [ev]) \/
     (event_buf_push sample_queue ev sample_junk = (sample_queue, -1) /\
      snd (gen_elem_callback sample_queue
             (sample_elem OCSD_GEN_TRC_ELEM_INSTR_RANGE
                          OCSD_INSTR_BR_INDIRECT)
             sample_junk) = OCSD_RESP_FATAL_SYS_ERR)).
Proof.
  exact (classifier_follows_rules sample_queue
           (sample_elem OCSD_GEN_TRC_ELEM_INSTR_RANGE OCSD_INSTR_BR_INDIRECT)
           sample_junk sample_queue_wf (sample_elem_in_range _ _)).
Defined.

(** The seven rules on literal elements, and two dropped kinds. *)
Example classifier_rules_on_samples :
  let emitted t i :=
    event_view <$>
      queue_contents
        (fst (gen_elem_callback sample_queue (sample_elem t i) sample_junk))
  in
  emitted OCSD_GEN_TRC_ELEM_INSTR_RANGE OCSD_INSTR_BR_INDIRECT
    = [Return 0x1000 0x1010] /\
  emitted OCSD_GEN_TRC_ELEM_INSTR_RANGE OCSD_INSTR_BR
    = [Call 0x1000 0x1010] /\
  emitted OCSD_GEN_TRC_ELEM_INSTR_RANGE OCSD_INSTR_ISB
    = [InstructionRange 0x1000 0x1010] /\
  emitted OCSD_GEN_TRC_ELEM_TRACE_ON OCSD_INSTR_OTHER = [TraceOn 0x1000] /\
  emitted OCSD_GEN_TRC_ELEM_TRACE_OFF OCSD_INSTR_OTHER = [TraceOff 0x1000] /\
  emitted OCSD_GEN_TRC_ELEM_EXCEPTION OCSD_INSTR_OTHER
    = [Exception 0x1000 11] /\
  emitted OCSD_GEN_TRC_ELEM_EXCEPTION_RET OCSD_INSTR_OTHER
    = [ExceptionReturn 0x1000] /\
  emitted OCSD_GEN_TRC_ELEM_TIMESTAMP OCSD_INSTR_OTHER = [] /\
  emitted OCSD_GEN_TRC_ELEM_PE_CONTEXT OCSD_INSTR_BR = [].
Proof. repeat split; vm_compute; reflexivity. Qed.

(** C4.  Whenever the push performed inside the classifier callback fails,
    the callback returns the fatal-system-error status and latches the
    error state: the flag is 1 and the message is the allocation-failure
    text; the queue and the tree handle are as before, and the engine,
    stopping at a fatal response, delivers no further element of the
    call. *)
Theorem push_failure_is_fatal dec elem a ev :
  gen_elem_event elem = Some ev ->
  snd (event_buf_push dec ev a) <> 0 ->
  exists dec',
    gen_elem_callback dec elem a = (dec', OCSD_RESP_FATAL_SYS_ERR) /\
    error_flag dec' = 1 /\
    error_msg dec' = "opencsd: event buffer allocation failed"%string /\
    mtrace_opencsd_has_error dec' <> 0 /\
    same_queue dec' dec /\
    dcd_tree dec' = dcd_tree dec /\
    forall rest, deliver_elems dec ((elem, a) :: rest) = dec'.
Proof.
  intros Hev Hrc.
  assert (Hcb := gen_elem_callback_push dec elem a ev Hev).
  rewrite (event_buf_push_failure dec ev a Hrc) in Hcb.
  eexists. split; [exact Hcb|].
  repeat split; try done.
  intros rest. simpl. by rewrite Hcb.
Qed.

Lemma push_failure_is_fatal_witness :
  exists dec',
    gen_elem_callback sample_full_queue
      (sample_elem OCSD_GEN_TRC_ELEM_INSTR_RANGE OCSD_INSTR_BR) None
      = (dec', OCSD_RESP_FATAL_SYS_ERR) /\
    error_flag dec' = 1 /\
    error_msg dec' = "opencsd: event buffer allocation failed"%string /\
    mtrace_opencsd_has_error dec' <> 0 /\
    same_queue dec' sample_full_queue /\
    dcd_tree dec' = dcd_tree sample_full_queue /\
    forall rest,
      deliver_elems sample_full_queue
        ((sample_elem OCSD_GEN_TRC_ELEM_INSTR_RANGE OCSD_INSTR_BR, None)
           :: rest) = dec'.
Proof.
  eapply (push_failure_is_fatal sample_full_queue
            (sample_elem OCSD_GEN_TRC_ELEM_INSTR_RANGE OCSD_INSTR_BR) None).
  - reflexivity.
  - vm_compute. congruence.
Defined.

(** Every event the classifier builds carries the element's timestamp. *)
Lemma gen_elem_event_timestamp elem ev :
  gen_elem_event elem = Some ev -> timestamp ev = elem_timestamp elem.
Proof.
  unfold gen_elem_event.
  destruct (elem_type elem); intros [= <-]; reflexivity.
Qed.

(** C10 (what the code does).  For a trace-on, trace-off, exception or
    exception-return element the classifier reads no context and the [cpu]
    field keeps the 0 of [memset]: it is 0, not the -1 that
    [opencsd_binding.h] documents for an unknown CPU. *)
Theorem context_free_events_have_cpu_zero i st en ctxt exc ts :
  cpu <$> gen_elem_event
            (mk_elem OCSD_GEN_TRC_ELEM_TRACE_ON i st en ctxt exc ts)
    = Some 0 /\
  cpu <$> gen_elem_event
            (mk_elem OCSD_GEN_TRC_ELEM_TRACE_OFF i st en ctxt exc ts)
    = Some 0 /\
  cpu <$> gen_elem_event
            (mk_elem OCSD_GEN_TRC_ELEM_EXCEPTION i st en ctxt exc ts)
    = Some 0 /\
  cpu <$> gen_elem_event
            (mk_elem OCSD_GEN_TRC_ELEM_EXCEPTION_RET i st en ctxt exc ts)
    = Some 0.
Proof. repeat split; done. Qed.

(* ---------------------------------------------------------------------- *)
(** ** The decode session *)

Lemma ocsd_err_eqb_eq a b : ocsd_err_eqb a b = true <-> a = b.
Proof.
  destruct a, b; simpl; try (split; [discriminate|congruence]);
    try done.
  rewrite Z.eqb_eq. split; congruence.
Qed.

Lemma ocsd_err_eqb_neq a b : a <> b -> ocsd_err_eqb a b = false.
Proof.
  intros Hne. destruct (ocsd_err_eqb a b) eqn:Heq; [|done].
  by apply ocsd_err_eqb_eq in Heq.
Qed.

(** The callback keeps the ring invariant and the tree handle, and only
    ever appends to the queue. *)
Lemma gen_elem_callback_spec dec elem a :
  queue_wf dec ->
  queue_wf (fst (gen_elem_callback dec elem a)) /\
  dcd_tree (fst (gen_elem_callback dec elem a)) = dcd_tree dec /\
  exists new,
    queue_contents (fst (gen_elem_callback dec elem a))
      = queue_contents dec ++ new.
Proof.
  intros Hwf. destruct (gen_elem_event elem) as [ev|] eqn:Hev.
  - rewrite (gen_elem_callback_push _ _ _ _ Hev).
    destruct (event_buf_push_spec dec ev a Hwf)
      as [->|(dec' & -> & Hwf' & Hc & Hs & _)]; simpl.
    + split; [done|]. split; [done|]. exists []. by rewrite app_nil_r.
    + split; [done|]. split; [done|]. by exists [ev].
  - unfold gen_elem_callback. rewrite Hev. simpl.
    split; [done|]. split; [done|]. exists []. by rewrite app_nil_r.
Qed.

Lemma deliver_elems_spec elems : forall dec,
  queue_wf dec ->
  queue_wf (deliver_elems dec elems) /\
  dcd_tree (deliver_elems dec elems) = dcd_tree dec /\
  exists new,
    queue_contents (deliver_elems dec elems) = queue_contents dec ++ new.
Proof.
  induction elems as [|[elem a] elems IH]; intros dec Hwf; simpl.
  - split; [done|]. split; [done|]. exists []. by rewrite app_nil_r.
  - destruct (gen_elem_callback_spec dec elem a Hwf)
      as (Hwf1 & Ht1 & new1 & Hc1).
    destruct (gen_elem_callback dec elem a) as [dec1 []]; simpl in *.
    + destruct (IH dec1 Hwf1) as (Hwf2 & Ht2 & new2 & Hc2).
      split; [done|]. split; [congruence|].
      exists (new1 ++ new2). by rewrite Hc2, Hc1, app_assoc.
    + split; [done|]. split; [done|]. by exists new1.
Qed.

(** A feed call keeps the ring invariant and only ever appends to the
    queue, whether or not it latches an error. *)
Lemma mtrace_opencsd_decode_spec err_str dec data data_len data_index reply :
  queue_wf dec ->
  let dec' :=
    fst (fst (mtrace_opencsd_decode err_str dec data data_len data_index
                reply)) in
  queue_wf dec' /\
  exists new, queue_contents dec' = queue_contents dec ++ new.
Proof.
  intros Hwf. unfold mtrace_opencsd_decode.
  destruct (negb (error_flag dec =? 0)); simpl.
  - split; [done|]. exists []. by rewrite app_nil_r.
  - destruct (deliver_elems_spec (reply_elems reply) dec Hwf)
      as (Hwf' & _ & new & Hc).
    by destruct (negb _ && negb _); simpl; (split; [done|]; exists new).
Qed.


(** Every session [mtrace_opencsd_create] returns has an empty queue of 256
    slots that satisfies the ring invariant. *)
Lemma mtrace_opencsd_create_wf err_str protocol trace_id arch_version env
    dec calls :
  mtrace_opencsd_create err_str protocol trace_id arch_version env
    = (Some dec, calls) ->
  queue_wf dec /\ queue_contents dec = [] /\ event_buf_cap dec = 256.
Proof.
  unfold mtrace_opencsd_create.
  destruct (env_calloc_ok env); simpl; [|discriminate].
  destruct (env_malloc env) as [junk|]; [|discriminate].
  destruct (_ =? C_API_INVALID_TREE_HANDLE); [discriminate|].
  destruct (select_decoder arch_version) as [name cfg].
  destruct (negb _); intros [= <- _]; simpl;
    (split; [repeat split; vm_compute; congruence|done]).
Qed.

(** The ring invariant holds after every call of the API. *)
Lemma api_step_wf err_str dec c :
  queue_wf dec -> queue_wf (fst (fst (api_step err_str dec c))).
Proof.
  intros Hwf.
  destruct c as [f la off sz err|data len idx reply|reply| | |]; simpl;
    try done.
  - unfold mtrace_opencsd_add_image.
    by destruct (negb (ocsd_err_eqb err OCSD_OK)).
  - assert (H := mtrace_opencsd_decode_spec err_str dec data len idx reply
                   Hwf).
    destruct (mtrace_opencsd_decode _ _ _ _ _ _) as [[d rc] ext].
    apply H.
  - unfold mtrace_opencsd_flush.
    destruct (negb (error_flag dec =? 0)); simpl; [done|].
    apply deliver_elems_spec, Hwf.
  - unfold mtrace_opencsd_next_event.
    destruct (event_buf_pop_spec dec Hwf)
      as [[_ ->]|(x & l & d & _ & -> & Hwf' & _)]; done.
Qed.

Lemma session_run_wf err_str calls : forall dec,
  queue_wf dec -> queue_wf (fst (session_run err_str dec calls)).
Proof.
  induction calls as [|c calls IH]; intros dec Hwf; simpl; [done|].
  assert (Hwf1 := api_step_wf err_str dec c Hwf).
  destruct (api_step err_str dec c) as [[dec1 r] ext].
  specialize (IH dec1 Hwf1).
  by destruct (session_run err_str dec1 calls).
Qed.

(** On an errored session a feed call returns -1 at once: the session is
    unchanged and nothing outside the binding is called. *)
Lemma mtrace_opencsd_decode_errored err_str dec data data_len data_index
    reply :
  error_flag dec <> 0 ->
  mtrace_opencsd_decode err_str dec data data_len data_index reply
    = (dec, -1, []).
Proof.
  intros Hflag. unfold mtrace_opencsd_decode.
  by destruct (Z.eqb_spec (error_flag dec) 0).
Qed.

Lemma mtrace_opencsd_flush_errored dec reply :
  error_flag dec <> 0 -> mtrace_opencsd_flush dec reply = (dec, -1, []).
Proof.
  intros Hflag. unfold mtrace_opencsd_flush.
  by destruct (Z.eqb_spec (error_flag dec) 0).
Qed.

Lemma event_buf_pop_error_flag dec :
  error_flag (fst (fst (event_buf_pop dec))) = error_flag dec.
Proof.
  unfold event_buf_pop.
  by destruct (event_buf_head dec =? event_buf_tail dec).
Qed.

(** No call of the API clears a flag that is set; the two feed calls do
    nothing at all then. *)
Lemma api_step_errored err_str dec c :
  error_flag dec <> 0 ->
  error_flag (fst (fst (api_step err_str dec c))) = error_flag dec /\
  (is_feed c = true ->
   snd (fst (api_step err_str dec c)) = ret_int (-1) /\
   snd (api_step err_str dec c) = []).
Proof.
  intros Hflag.
  destruct c as [f la off sz err|data len idx reply|reply| | |]; simpl.
  - unfold mtrace_opencsd_add_image.
    by destruct (negb (ocsd_err_eqb err OCSD_OK)).
  - by rewrite mtrace_opencsd_decode_errored.
  - by rewrite mtrace_opencsd_flush_errored.
  - unfold mtrace_opencsd_next_event.
    assert (H := event_buf_pop_error_flag dec).
    by destruct (event_buf_pop dec) as [[d rc] out].
  - done.
  - done.
Qed.

Lemma session_run_errored err_str calls : forall dec,
  error_flag dec <> 0 ->
  error_flag (fst (session_run err_str dec calls)) = error_flag dec /\
  Forall (fun o => obs_has_error o <> 0)
         (snd (session_run err_str dec calls)) /\
  Forall2 (fun c o =>
             is_feed c = true ->
             obs_ret o = ret_int (-1) /\ obs_extern o = [])
          calls (snd (session_run err_str dec calls)).
Proof.
  induction calls as [|c calls IH]; intros dec Hflag; simpl.
  - by repeat constructor.
  - destruct (api_step_errored err_str dec c Hflag) as [Hkeep Hfeed].
    destruct (api_step err_str dec c) as [[dec1 r] ext]. simpl in *.
    assert (Hflag1 : error_flag dec1 <> 0) by congruence.
    destruct (IH dec1 Hflag1) as (Hkeep' & Herr & Hfeeds).
    destruct (session_run err_str dec1 calls) as [dec2 obs]. simpl in *.
    split; [congruence|]. split; by constructor.
Qed.

(** C5.  The errored state is sticky and fails fast.  On every session whose
    error flag is set: a feed call returns -1 (an [Error] with the latched
    message at the stub) with the session unchanged and no call to the
    engine; and along every sequence of API calls the flag keeps its value,
    [mtrace_opencsd_has_error] answers non-zero after each call, and each
    feed or flush call of the sequence returns -1 without calling the
    engine. *)
Theorem errored_is_sticky err_str dec calls :
  error_flag dec <> 0 ->
  (forall data data_len data_index reply,
     mtrace_opencsd_decode err_str dec data data_len data_index reply
       = (dec, -1, [])) /\
  (forall data off len index reply,
     caml_mtrace_opencsd_decode err_str dec data off len index reply
       = (dec, Error (error_msg dec), [])) /\
  mtrace_opencsd_has_error (fst (session_run err_str dec calls))
    = error_flag dec /\
  Forall (fun o => obs_has_error o <> 0)
         (snd (session_run err_str dec calls)) /\
  Forall2 (fun c o =>
             is_feed c = true ->
             obs_ret o = ret_int (-1) /\ obs_extern o = [])
          calls (snd (session_run err_str dec calls)).
Proof.
  intros Hflag. split; [|split].
  - intros. by apply mtrace_opencsd_decode_errored.
  - intros. unfold caml_mtrace_opencsd_decode.
    by rewrite mtrace_opencsd_decode_errored.
  - unfold mtrace_opencsd_has_error.
    by apply session_run_errored.
Qed.

Lemma errored_is_sticky_witness :
  (forall data data_len data_index reply,
     mtrace_opencsd_decode sample_err_str sample_errored_session data
                           data_len data_index reply
       = (sample_errored_session, -1, [])) /\
  (forall data off len index reply,
     caml_mtrace_opencsd_decode sample_err_str sample_errored_session data
                                off len index reply
       = (sample_errored_session,
          Error (error_msg sample_errored_session), [])) /\
  mtrace_opencsd_has_error
    (fst (session_run sample_err_str sample_errored_session sample_calls))
    = error_flag sample_errored_session /\
  Forall (fun o => obs_has_error o <> 0)
         (snd (session_run sample_err_str sample_errored_session
                           sample_calls)) /\
  Forall2 (fun c o =>
             is_feed c = true ->
             obs_ret o = ret_int (-1) /\ obs_extern o = [])
          sample_calls
          (snd (session_run sample_err_str sample_errored_session
                            sample_calls)).
Proof.
  apply (errored_is_sticky sample_err_str sample_errored_session
                           sample_calls).
  vm_compute. congruence.
Defined.


Lemma sample_errored_session_wf : queue_wf sample_errored_session.
Proof. repeat split; vm_compute; congruence. Qed.


(** A fatal feed call in the middle of a burst: the events accepted before
    the error stay in the queue and are drained afterwards. *)
Example drain_after_fatal_decode :
  let reply :=
    {| reply_elems :=
         [(sample_elem OCSD_GEN_TRC_ELEM_INSTR_RANGE OCSD_INSTR_BR,
           sample_junk);
          (sample_elem OCSD_GEN_TRC_ELEM_EXCEPTION OCSD_INSTR_OTHER,
           sample_junk)];
       reply_err := OCSD_ERR_other 3; reply_bytes_used := 8 |} in
  let '(dec, rc, _) :=
    mtrace_opencsd_decode sample_err_str sample_session [] 16 64 reply in
  rc = -1 /\ mtrace_opencsd_has_error dec = 1 /\
  mtrace_opencsd_error_msg dec
    = "opencsd: decode error at index 64: OCSD_ERR 3"%string /\
  event_view <$> snd (drain 3 dec)
    = [Call 0x1000 0x1010; Exception 0x1000 11].
Proof. vm_compute. repeat split; reflexivity. Qed.

(** On an errored session flush fails fast, like feed. *)
Lemma flush_fails_fast dec reply :
  error_flag dec <> 0 ->
  mtrace_opencsd_flush dec reply = (dec, -1, []) /\
  caml_mtrace_opencsd_flush dec reply = (dec, Error (error_msg dec), []).
Proof.
  intros Hflag. unfold caml_mtrace_opencsd_flush.
  by rewrite mtrace_opencsd_flush_errored.
Qed.

(** Flush never writes the error flag or the message itself: when the engine
    delivers no element, the session comes back as it was, whatever status
    the engine returns. *)
Lemma flush_keeps_session dec reply :
  reply_elems reply = [] -> fst (fst (mtrace_opencsd_flush dec reply)) = dec.
Proof.
  intros Hnil. unfold mtrace_opencsd_flush. rewrite Hnil.
  by destruct (negb (error_flag dec =? 0)).
Qed.

(** C7 (what the code does).  On a fresh session, when the engine answers a
    flush with a fatal status, [mtrace_opencsd_flush] returns -1 after one
    call to the engine but latches nothing: the error flag is still 0 and
    the message still empty, so the stub returns [Error] with an empty
    message, and a later feed call goes to the engine again.  The feed path
    latches on the same status. *)
Theorem flush_fatal_status_not_latched :
  mtrace_opencsd_flush sample_session sample_fatal_reply
    = (sample_session, -1,
       [call_ocsd_dt_process_data 1 OCSD_OP_FLUSH 0 0 []]) /\
  mtrace_opencsd_has_error
    (fst (fst (mtrace_opencsd_flush sample_session sample_fatal_reply))) = 0 /\
  caml_mtrace_opencsd_flush sample_session sample_fatal_reply
    = (sample_session, Error EmptyString,
       [call_ocsd_dt_process_data 1 OCSD_OP_FLUSH 0 0 []]) /\
  snd (mtrace_opencsd_decode sample_err_str
         (fst (fst (mtrace_opencsd_flush sample_session sample_fatal_reply)))
         [] 16 64 sample_fatal_reply)
    = [call_ocsd_dt_process_data 1 OCSD_OP_DATA 64 16 []] /\
  mtrace_opencsd_has_error
    (fst (fst (mtrace_opencsd_decode sample_err_str sample_session
                 [] 16 64 sample_fatal_reply))) = 1.
Proof. vm_compute. repeat split; reflexivity. Qed.

(* ---------------------------------------------------------------------- *)
(** ** Image registration *)




(* ---------------------------------------------------------------------- *)
(** ** Session creation *)

Example create_in_sample_env :
  mtrace_opencsd_create sample_err_str 0 0 4 sample_env
    = (Some sample_session,
       [call_ocsd_create_dcd_tree; call_ocsd_dt_set_gen_elem_outfn 1;
        call_ocsd_dt_create_decoder 1 OCSD_BUILTIN_DCD_ETMV4I
          (ocsd_etmv4_cfg 0x28000ea1 0x4100f403 0x00000488 0 0x000000c1)]).
Proof. vm_compute. reflexivity. Qed.

(** C9 (as stated, refuted).  With the session record and its queue
    allocated, when the engine cannot create the decode tree, create frees
    both and returns the null pointer: failure is signalled through the
    return value and no session is handed out. *)
Lemma create_returns_null_without_tree :
  env_calloc_ok sample_env_no_tree = true /\
  is_Some (env_malloc sample_env_no_tree) /\
  mtrace_opencsd_create sample_err_str 0 0 4 sample_env_no_tree
    = (None,
       [call_ocsd_create_dcd_tree; call_free_event_buf; call_free_dec]).
Proof. split; [done|]. split; [by eexists|]. vm_compute. reflexivity. Qed.

(** C9 (amended).  For every create call in which the session record and its
    queue are allocated: when the decode tree is created but the engine
    refuses to create the decoder in it, create returns a non-null session
    pre-latched into the errored state (flag 1, a message naming the
    failure), with an empty 256-slot queue, and destroying that session
    releases the tree, the queue's block and the record; when the decode
    tree itself cannot be created, create frees the block and the record and
    returns the null pointer. *)
Theorem create_decoder_failure_is_latched err_str protocol trace_id
    arch_version env junk :
  env_calloc_ok env = true ->
  env_malloc env = Some junk ->
  (env_dcd_tree env <> C_API_INVALID_TREE_HANDLE ->
   env_decoder_err env <> OCSD_OK ->
   exists dec calls,
     mtrace_opencsd_create err_str protocol trace_id arch_version env
       = (Some dec, calls) /\
     mtrace_opencsd_has_error dec = 1 /\
     mtrace_opencsd_error_msg dec
       = String.substring 0 255
           (String.append "opencsd: ocsd_dt_create_decoder failed: "
              (err_str (env_decoder_err env))) /\
     queue_wf dec /\ queue_contents dec = [] /\ event_buf_cap dec = 256 /\
     (forall data data_len data_index reply,
        mtrace_opencsd_decode err_str dec data data_len data_index reply
          = (dec, -1, [])) /\
     mtrace_opencsd_destroy (Some dec)
       = [call_ocsd_destroy_dcd_tree (env_dcd_tree env);
          call_free_event_buf; call_free_dec]) /\
  (env_dcd_tree env = C_API_INVALID_TREE_HANDLE ->
   mtrace_opencsd_create err_str protocol trace_id arch_version env
     = (None,
        [call_ocsd_create_dcd_tree; call_free_event_buf; call_free_dec])).
Proof.
  intros Hcalloc Hmalloc. unfold mtrace_opencsd_create.
  rewrite Hcalloc, Hmalloc. simpl. split.
  - intros Htree Herr.
    destruct (Z.eqb_spec (env_dcd_tree env) C_API_INVALID_TREE_HANDLE)
      as [|_]; [done|].
    rewrite (ocsd_err_eqb_neq _ _ Herr). simpl.
    destruct (select_decoder arch_version) as [name cfg].
    eexists _, _. split; [reflexivity|]. simpl.
    split; [done|]. split; [done|].
    split; [repeat split; vm_compute; congruence|].
    split; [done|]. split; [done|]. split; [done|].
    unfold mtrace_opencsd_destroy. simpl.
    by destruct (Z.eqb_spec (env_dcd_tree env) C_API_INVALID_TREE_HANDLE).
  - intros ->. reflexivity.
Qed.

Lemma create_decoder_failure_is_latched_witness :
  exists dec calls,
    mtrace_opencsd_create sample_err_str 0 0 4 sample_env_no_decoder
      = (Some dec, calls) /\
    mtrace_opencsd_has_error dec = 1 /\
    mtrace_opencsd_error_msg dec
      = String.substring 0 255
          (String.append "opencsd: ocsd_dt_create_decoder failed: "
             (sample_err_str (env_decoder_err sample_env_no_decoder))) /\
    queue_wf dec /\ queue_contents dec = [] /\ event_buf_cap dec = 256 /\
    (forall data data_len data_index reply,
       mtrace_opencsd_decode sample_err_str dec data data_len data_index
                             reply
         = (dec, -1, [])) /\
    mtrace_opencsd_destroy (Some dec)
      = [call_ocsd_destroy_dcd_tree (env_dcd_tree sample_env_no_decoder);
         call_free_event_buf; call_free_dec].
Proof.
  apply (create_decoder_failure_is_latched sample_err_str 0 0 4
           sample_env_no_decoder (fun _ => zero_event));
    [reflexivity|reflexivity|vm_compute; congruence|discriminate].
Defined.

Example create_without_decoder_message :
  mtrace_opencsd_error_msg <$>
    fst (mtrace_opencsd_create sample_err_str 0 0 4 sample_env_no_decoder)
  = Some "opencsd: ocsd_dt_create_decoder failed: OCSD_ERR 7"%string.
Proof. vm_compute. reflexivity. Qed.

(* ====================================================================== *)
(** * Further properties of the binding *)

(** ** The ring: occupancy and capacity *)

Lemma length_queue_contents_bound dec :
  queue_wf dec ->
  Z.of_nat (length (queue_contents dec)) <= event_buf_cap dec - 1.
Proof.
  intros Hwf. rewrite (length_queue_contents dec Hwf).
  destruct Hwf as (Hcap & _).
  pose proof (Z.mod_pos_bound (event_buf_head dec - event_buf_tail dec)
                (event_buf_cap dec) Hcap). lia.
Qed.

(** The three ways a push can go. *)
Lemma event_buf_push_growth_cases dec ev a :
  queue_wf dec ->
  (Z.of_nat (length (queue_contents dec)) < event_buf_cap dec - 1 /\
   snd (event_buf_push dec ev a) = 0 /\
   event_buf_cap (fst (event_buf_push dec ev a)) = event_buf_cap dec) \/
  (Z.of_nat (length (queue_contents dec)) = event_buf_cap dec - 1 /\
   event_buf_push dec ev a = (dec, -1)) \/
  (Z.of_nat (length (queue_contents dec)) = event_buf_cap dec - 1 /\
   snd (event_buf_push dec ev a) = 0 /\
   event_buf_cap (fst (event_buf_push dec ev a)) = event_buf_cap dec * 2).
Proof.
  intros Hwf.
  pose proof (next_head_meets_tail dec Hwf) as Hfull.
  pose proof (length_queue_contents_bound dec Hwf) as Hbound.
  destruct Hwf as (Hcap & Hlen & Hsz & _).
  unfold event_buf_push.
  destruct (Z.eqb_spec
              (size_add (event_buf_head dec) 1 mod event_buf_cap dec)
              (event_buf_tail dec)) as [Heq|Hne].
  - right. apply Hfull in Heq.
    destruct (realloc _ _ a) as [nb|] eqn:Hre; [|by left].
    destruct (realloc_double _ _ _ _ Hlen Hcap Hsz Hre) as (H2 & _).
    right. rewrite H2.
    by destruct (event_buf_head dec <? event_buf_tail dec).
  - left. split; [|done].
    assert (Z.of_nat (length (queue_contents dec)) <> event_buf_cap dec - 1)
      by (intros H; by apply Hfull in H).
    lia.
Qed.

(** X1.  The ring always keeps one slot empty.  On every queue that
    satisfies the ring invariant, after [event_buf_push] the number of
    queued events is [(head - tail) mod cap] of the new indices and
    capacity and at most [cap - 1], one more than before when the push
    returned 0; push doubles the capacity exactly when the queue held
    [cap - 1] events and the push returned 0, and leaves it as it was in
    every other case; and [event_buf_pop] returns 0 exactly when head and
    tail meet, which is when the queue holds no event. *)
Theorem queue_keeps_one_slot_empty dec ev a :
  queue_wf dec ->
  let dec' := fst (event_buf_push dec ev a) in
  Z.of_nat (length (queue_contents dec'))
    = (event_buf_head dec' - event_buf_tail dec') mod event_buf_cap dec' /\
  Z.of_nat (length (queue_contents dec')) <= event_buf_cap dec' - 1 /\
  (snd (event_buf_push dec ev a) = 0 ->
   Z.of_nat (length (queue_contents dec'))
     = Z.of_nat (length (queue_contents dec)) + 1) /\
  (event_buf_cap dec' = event_buf_cap dec * 2 <->
   Z.of_nat (length (queue_contents dec)) = event_buf_cap dec - 1 /\
   snd (event_buf_push dec ev a) = 0) /\
  (event_buf_cap dec' <> event_buf_cap dec * 2 ->
   event_buf_cap dec' = event_buf_cap dec) /\
  (snd (fst (event_buf_pop dec)) = 0 <->
   event_buf_head dec = event_buf_tail dec) /\
  (event_buf_head dec = event_buf_tail dec <-> queue_contents dec = []).
Proof.
  intros Hwf dec'.
  assert (Hwf' : queue_wf dec' /\
                 (snd (event_buf_push dec ev a) = 0 ->
                  queue_contents dec' = queue_contents dec ++ [ev])).
  { subst dec'.
    destruct (event_buf_push_spec dec ev a Hwf)
      as [->|(d & -> & Hwf' & Hc & _)]; simpl; [|done].
    split; [done|discriminate]. }
  destruct Hwf' as [Hwf' Hc].
  pose proof (event_buf_push_growth_cases dec ev a Hwf) as Hcases.
  fold dec' in Hcases.
  pose proof Hwf as (Hcap & _).
  split; [by apply length_queue_contents|].
  split; [by apply length_queue_contents_bound|].
  split.
  { intros Hrc. rewrite (Hc Hrc), length_app. simpl. lia. }
  split; [|split; [|split]].
  - destruct Hcases as [(Hroom & Hrc & Hsame)
                       |[(Hfull & Hfail)|(Hfull & Hrc & Hdbl)]].
    + split; [lia|]. intros [Hlen _]. lia.
    + subst dec'. rewrite Hfail. simpl. split; [lia|]. by intros [_ ?].
    + done.
  - destruct Hcases as [(_ & _ & Hsame)
                       |[(_ & Hfail)|(_ & _ & Hdbl)]]; [done| |done].
    subst dec'. by rewrite Hfail.
  - unfold event_buf_pop.
    destruct (Z.eqb_spec (event_buf_head dec) (event_buf_tail dec));
      simpl; split; done.
  - symmetry. by apply queue_contents_nil.
Qed.

Lemma queue_keeps_one_slot_empty_witness :
  let dec' := fst (event_buf_push sample_full_queue (sample_event 6)
                     sample_junk) in
  Z.of_nat (length (queue_contents dec'))
    = (event_buf_head dec' - event_buf_tail dec') mod event_buf_cap dec' /\
  Z.of_nat (length (queue_contents dec')) <= event_buf_cap dec' - 1 /\
  (snd (event_buf_push sample_full_queue (sample_event 6) sample_junk) = 0 ->
   Z.of_nat (length (queue_contents dec'))
     = Z.of_nat (length (queue_contents sample_full_queue)) + 1) /\
  (event_buf_cap dec' = event_buf_cap sample_full_queue * 2 <->
   Z.of_nat (length (queue_contents sample_full_queue))
     = event_buf_cap sample_full_queue - 1 /\
   snd (event_buf_push sample_full_queue (sample_event 6) sample_junk) = 0)
  /\
  (event_buf_cap dec' <> event_buf_cap sample_full_queue * 2 ->
   event_buf_cap dec' = event_buf_cap sample_full_queue) /\
  (snd (fst (event_buf_pop sample_full_queue)) = 0 <->
   event_buf_head sample_full_queue = event_buf_tail sample_full_queue) /\
  (event_buf_head sample_full_queue = event_buf_tail sample_full_queue <->
   queue_contents sample_full_queue = []).
Proof.
  apply (queue_keeps_one_slot_empty sample_full_queue (sample_event 6)
           sample_junk).
  repeat split; vm_compute; congruence.
Defined.

(** X2.  A push fails only for lack of memory on a full queue.  On every
    queue that satisfies the ring invariant, push returns 0 or -1; it
    returns -1 exactly when the queue holds [cap - 1] events and the
    [realloc] of the doubled block fails, and then nothing is changed; with
    room left it returns 0 whatever the allocator would answer, and the
    queue is one event longer. *)
Theorem push_fails_only_when_full_and_no_memory dec ev a :
  queue_wf dec ->
  (snd (event_buf_push dec ev a) = 0 \/
   snd (event_buf_push dec ev a) = -1) /\
  (snd (event_buf_push dec ev a) = -1 <->
   Z.of_nat (length (queue_contents dec)) = event_buf_cap dec - 1 /\
   realloc (event_buf dec)
           (size_mul (size_mul (event_buf_cap dec) 2) sizeof_event) a
     = None) /\
  (snd (event_buf_push dec ev a) = -1 ->
   fst (event_buf_push dec ev a) = dec) /\
  (snd (event_buf_push dec ev a) = 0 ->
   length (queue_contents (fst (event_buf_push dec ev a)))
     = S (length (queue_contents dec))).
Proof.
  intros Hwf.
  pose proof (next_head_meets_tail dec Hwf) as Hfull.
  pose proof (event_buf_push_spec dec ev a Hwf) as Hspec.
  assert (Hcases :
    event_buf_push dec ev a = (dec, -1) /\
    (size_add (event_buf_head dec) 1 mod event_buf_cap dec
       = event_buf_tail dec /\
     realloc (event_buf dec)
             (size_mul (size_mul (event_buf_cap dec) 2) sizeof_event) a
       = None)
    \/
    snd (event_buf_push dec ev a) = 0 /\
    ~ (size_add (event_buf_head dec) 1 mod event_buf_cap dec
         = event_buf_tail dec /\
       realloc (event_buf dec)
               (size_mul (size_mul (event_buf_cap dec) 2) sizeof_event) a
         = None)).
  { unfold event_buf_push.
    destruct (Z.eqb_spec
                (size_add (event_buf_head dec) 1 mod event_buf_cap dec)
                (event_buf_tail dec)) as [Heq|Hne].
    - destruct (realloc _ _ a) as [nb|].
      + right. split; [|by intros [_ ?]].
        by destruct (event_buf_head dec <? event_buf_tail dec).
      + by left.
    - right. split; [done|]. by intros [? _]. }
  destruct Hcases as [[Hpush Hwhy]|[Hrc Hwhy]].
  - rewrite Hpush. simpl. split; [by right|].
    split; [|split; [done|intros; discriminate]].
    split; [|intros; reflexivity]. intros _.
    split; [apply Hfull, Hwhy|apply Hwhy].
  - rewrite Hrc. split; [by left|].
    split; [|split; [intros; discriminate|]].
    + split; [intros; discriminate|]. intros [Hlen Hre]. destruct Hwhy.
      split; [by apply Hfull|done].
    + intros _.
      destruct Hspec as [Hfail|(dec' & Hok & _ & Hc & _)].
      * rewrite Hfail in Hrc. done.
      * rewrite Hok. simpl. rewrite Hc, length_app. simpl. lia.
Qed.

Lemma push_fails_only_when_full_and_no_memory_witness :
  (snd (event_buf_push sample_full_queue (sample_event 7) None) = 0 \/
   snd (event_buf_push sample_full_queue (sample_event 7) None) = -1) /\
  (snd (event_buf_push sample_full_queue (sample_event 7) None) = -1 <->
   Z.of_nat (length (queue_contents sample_full_queue))
     = event_buf_cap sample_full_queue - 1 /\
   realloc (event_buf sample_full_queue)
           (size_mul (size_mul (event_buf_cap sample_full_queue) 2)
                     sizeof_event) None
     = None) /\
  (snd (event_buf_push sample_full_queue (sample_event 7) None) = -1 ->
   fst (event_buf_push sample_full_queue (sample_event 7) None)
     = sample_full_queue) /\
  (snd (event_buf_push sample_full_queue (sample_event 7) None) = 0 ->
   length (queue_contents
             (fst (event_buf_push sample_full_queue (sample_event 7) None)))
     = S (length (queue_contents sample_full_queue))).
Proof.
  apply (push_fails_only_when_full_and_no_memory sample_full_queue
           (sample_event 7) None).
  repeat split; vm_compute; congruence.
Defined.

Lemma event_buf_push_cap dec ev a :
  queue_wf dec ->
  event_buf_cap (fst (event_buf_push dec ev a)) = event_buf_cap dec \/
  (event_buf_cap (fst (event_buf_push dec ev a)) = event_buf_cap dec * 2 /\
   snd (event_buf_push dec ev a) = 0).
Proof.
  intros (Hcap & Hlen & Hsz & _). unfold event_buf_push.
  destruct (_ =? event_buf_tail dec); [|by left].
  destruct (realloc _ _ a) as [nb|] eqn:Hre; [|by left].
  destruct (realloc_double _ _ _ _ Hlen Hcap Hsz Hre) as (H2 & _).
  right. rewrite H2.
  by destruct (event_buf_head dec <? event_buf_tail dec).
Qed.

Lemma queue_step_cap dec op :
  queue_wf dec ->
  event_buf_cap (fst (queue_step dec op)) = event_buf_cap dec \/
  (event_buf_cap (fst (queue_step dec op)) = event_buf_cap dec * 2 /\
   exists ev, snd (queue_step dec op) = obs_pushed ev).
Proof.
  intros Hwf. destruct op as [ev a|]; simpl.
  - destruct (event_buf_push_cap dec ev a Hwf) as [H|[H Hrc]];
      destruct (event_buf_push dec ev a) as [d rc]; simpl in *;
      [by left|].
    right. subst rc. split; [done|]. by exists ev.
  - left. destruct (event_buf_pop_frame dec) as (_ & H & _).
    by destruct (event_buf_pop dec) as [[d rc] [x|]].
Qed.

(** A step that is not a successful push leaves the block, the capacity
    and the head as they were. *)
Lemma queue_step_frame dec op :
  (forall ev, snd (queue_step dec op) <> obs_pushed ev) ->
  event_buf (fst (queue_step dec op)) = event_buf dec /\
  event_buf_cap (fst (queue_step dec op)) = event_buf_cap dec /\
  event_buf_head (fst (queue_step dec op)) = event_buf_head dec.
Proof.
  destruct op as [ev a|]; simpl.
  - intros Hno.
    destruct (Z.eq_dec (snd (event_buf_push dec ev a)) 0) as [Hrc|Hrc].
    + destruct (event_buf_push dec ev a) as [d rc]. simpl in *. subst rc.
      by destruct (Hno ev).
    + by rewrite (event_buf_push_failure dec ev a Hrc).
  - intros _. pose proof (event_buf_pop_frame dec) as Hframe.
    by destruct (event_buf_pop dec) as [[d rc] [x|]].
Qed.

Lemma queue_run_frame ops : forall dec,
  pushed_values (snd (queue_run dec ops)) = [] ->
  event_buf (fst (queue_run dec ops)) = event_buf dec /\
  event_buf_cap (fst (queue_run dec ops)) = event_buf_cap dec /\
  event_buf_head (fst (queue_run dec ops)) = event_buf_head dec.
Proof.
  induction ops as [|op ops IH]; intros dec; simpl; [done|].
  pose proof (queue_step_frame dec op) as Hstep.
  destruct (queue_step dec op) as [dec1 o].
  specialize (IH dec1).
  destruct (queue_run dec1 ops) as [dec2 os]. simpl in *.
  intros Hnone.
  assert (Hno : forall ev, o <> obs_pushed ev)
    by (intros ev ->; discriminate).
  destruct (Hstep Hno) as (Hb & Hc & Hh).
  destruct IH as (Hb2 & Hc2 & Hh2); [by destruct o|].
  split; [congruence|]. split; congruence.
Qed.

(** X3.  The capacity only ever doubles, and only a successful push touches
    the block.  Along every run of pushes and pops on a queue that
    satisfies the ring invariant, the final capacity is the initial one
    times a power of two, with at most one doubling per successful push;
    a run in which no push succeeded (pops and failed pushes only) leaves
    the block, its capacity and the head exactly as they were; in
    particular [event_buf_pop] never writes the block, shrinks it or moves
    the head. *)
Theorem capacity_only_doubles ops : forall dec dec' os,
  queue_wf dec ->
  queue_run dec ops = (dec', os) ->
  (exists k : nat,
     (k <= length (pushed_values os))%nat /\
     event_buf_cap dec' = event_buf_cap dec * 2 ^ Z.of_nat k) /\
  (pushed_values os = [] ->
   event_buf dec' = event_buf dec /\
   event_buf_cap dec' = event_buf_cap dec /\
   event_buf_head dec' = event_buf_head dec) /\
  (event_buf (fst (fst (event_buf_pop dec))) = event_buf dec /\
   event_buf_cap (fst (fst (event_buf_pop dec))) = event_buf_cap dec /\
   event_buf_head (fst (fst (event_buf_pop dec))) = event_buf_head dec).
Proof.
  intros dec dec' os Hwf Hrun.
  split; [|split; [|apply event_buf_pop_frame]].
  - revert dec dec' os Hwf Hrun.
    induction ops as [|op ops IH]; intros dec dec' os Hwf; simpl.
    + intros [= <- <-]. exists O. simpl. split; [done|lia].
    + pose proof (queue_step_cap dec op Hwf) as Hcap.
      destruct (queue_step dec op) as [dec1 o] eqn:Hstep.
      destruct (queue_run dec1 ops) as [dec2 os'] eqn:Hrun.
      intros [= <- <-].
      destruct (queue_step_spec _ _ _ _ Hwf Hstep) as (Hwf1 & _).
      destruct (IH _ _ _ Hwf1 Hrun) as (k & Hk & Hcap2).
      simpl in Hcap. destruct Hcap as [Hsame|[Hdbl [ev ->]]].
      * exists k. split; [|congruence].
        destruct o; simpl; lia.
      * exists (S k). split; [simpl; lia|].
        rewrite Hcap2, Hdbl, Nat2Z.inj_succ, Z.pow_succ_r by lia. lia.
  - pose proof (queue_run_frame ops dec) as Hframe.
    rewrite Hrun in Hframe. exact Hframe.
Qed.

Lemma capacity_only_doubles_witness :
  (exists k : nat,
     (k <= length (pushed_values
                     (snd (queue_run sample_queue sample_ops))))%nat /\
     event_buf_cap (fst (queue_run sample_queue sample_ops))
       = event_buf_cap sample_queue * 2 ^ Z.of_nat k) /\
  (pushed_values (snd (queue_run sample_queue sample_ops)) = [] ->
   event_buf (fst (queue_run sample_queue sample_ops))
     = event_buf sample_queue /\
   event_buf_cap (fst (queue_run sample_queue sample_ops))
     = event_buf_cap sample_queue /\
   event_buf_head (fst (queue_run sample_queue sample_ops))
     = event_buf_head sample_queue) /\
  (event_buf (fst (fst (event_buf_pop sample_queue)))
     = event_buf sample_queue /\
   event_buf_cap (fst (fst (event_buf_pop sample_queue)))
     = event_buf_cap sample_queue /\
   event_buf_head (fst (fst (event_buf_pop sample_queue)))
     = event_buf_head sample_queue).
Proof.
  apply (capacity_only_doubles sample_ops sample_queue
           (fst (queue_run sample_queue sample_ops))
           (snd (queue_run sample_queue sample_ops)) sample_queue_wf).
  vm_compute. reflexivity.
Defined.

(* ---------------------------------------------------------------------- *)
(** ** Delivery of a burst of elements *)

(** The three things the callback can do with one element. *)
Lemma gen_elem_callback_cases dec elem a :
  queue_wf dec ->
  (gen_elem_event elem = None /\
   gen_elem_callback dec elem a = (dec, OCSD_RESP_CONT)) \/
  (exists ev dec',
     gen_elem_event elem = Some ev /\
     gen_elem_callback dec elem a = (dec', OCSD_RESP_CONT) /\
     event_buf_push dec ev a = (dec', 0) /\
     queue_wf dec' /\
     queue_contents dec' = queue_contents dec ++ [ev] /\
     same_session_state dec' dec) \/
  (exists ev,
     gen_elem_event elem = Some ev /\
     event_buf_push dec ev a = (dec, -1) /\
     gen_elem_callback dec elem a
       = (set_error_flag (snprintf_error_msg dec alloc_failed_msg) 1,
          OCSD_RESP_FATAL_SYS_ERR)).
Proof.
  intros Hwf. destruct (gen_elem_event elem) as [ev|] eqn:Hev.
  - right. rewrite (gen_elem_callback_push _ _ _ _ Hev).
    destruct (event_buf_push_spec dec ev a Hwf)
      as [Hfail|(dec' & Hok & Hwf' & Hc & Hs)].
    + right. exists ev. by rewrite Hfail.
    + left. exists ev, dec'. by rewrite Hok.
  - left. unfold gen_elem_callback. by rewrite Hev.
Qed.

(** X4.  A burst is queued in delivery order and cut at the first failed
    push.  For every list of elements the engine hands to the callback in
    one call, the queue afterwards holds its former contents followed by the
    events of the first [k] elements, in order, dropped kinds leaving no
    trace; either all elements were consumed and the error state is
    untouched, or the push for element [k] failed, the error is latched with
    the allocation-failure message, and the events queued before it are
    kept. *)
Theorem deliver_elems_in_order elems : forall dec,
  queue_wf dec ->
  exists k : nat,
    queue_wf (deliver_elems dec elems) /\
    queue_contents (deliver_elems dec elems)
      = queue_contents dec ++ classified (take k (fst <$> elems)) /\
    ((k = length elems /\
      same_session_state (deliver_elems dec elems) dec) \/
     (exists elem ev,
        (fst <$> elems) !! k = Some elem /\
        gen_elem_event elem = Some ev /\
        error_flag (deliver_elems dec elems) = 1 /\
        error_msg (deliver_elems dec elems) = alloc_failed_msg)).
Proof.
  induction elems as [|[elem a] elems IH]; intros dec Hwf; simpl.
  - exists O. split; [done|]. split; [by rewrite app_nil_r|]. by left.
  - destruct (gen_elem_callback_cases dec elem a Hwf)
      as [[Hev ->]|[(ev & dec' & Hev & -> & _ & Hwf' & Hc & Hs)
                   |(ev & Hev & _ & ->)]].
    + destruct (IH dec Hwf) as (k & Hwfk & Hck & Hend).
      exists (S k). split; [done|]. split.
      * unfold classified in *. simpl. by rewrite Hev.
      * destruct Hend as [[-> Hs]|(e & v & Hk & Hv & Hf)];
          [by left|right]. by exists e, v.
    + destruct (IH dec' Hwf') as (k & Hwfk & Hck & Hend).
      exists (S k). split; [done|]. split.
      * unfold classified in *. simpl. rewrite Hev. simpl.
        by rewrite Hck, Hc, <- app_assoc.
      * destruct Hend as [[-> Hs']|(e & v & Hk & Hv & Hf)].
        -- left. split; [done|].
           unfold same_session_state in *. intuition congruence.
        -- right. by exists e, v.
    + exists O. split; [done|]. split; [by rewrite app_nil_r|].
      right. by exists elem, ev.
Qed.

Lemma deliver_elems_in_order_witness :
  exists k : nat,
    queue_wf (deliver_elems sample_queue (reply_elems sample_reply)) /\
    queue_contents (deliver_elems sample_queue (reply_elems sample_reply))
      = queue_contents sample_queue
          ++ classified (take k (fst <$> reply_elems sample_reply)) /\
    ((k = length (reply_elems sample_reply) /\
      same_session_state
        (deliver_elems sample_queue (reply_elems sample_reply))
        sample_queue) \/
     (exists elem ev,
        (fst <$> reply_elems sample_reply) !! k = Some elem /\
        gen_elem_event elem = Some ev /\
        error_flag (deliver_elems sample_queue (reply_elems sample_reply))
          = 1 /\
        error_msg (deliver_elems sample_queue (reply_elems sample_reply))
          = alloc_failed_msg)).
Proof.
  exact (deliver_elems_in_order (reply_elems sample_reply) sample_queue
           sample_queue_wf).
Defined.

Example deliver_sample_reply :
  event_view <$>
    queue_contents (deliver_elems sample_queue (reply_elems sample_reply))
  = [TraceOn 0x1000; Call 0x1000 0x1010; Exception 0x1000 11].
Proof. vm_compute. reflexivity. Qed.






(* ---------------------------------------------------------------------- *)
(** ** Results of feed and flush *)

Lemma to_int_small z : 0 <= z < 2 ^ 31 -> to_int z = z.
Proof.
  intros H. unfold to_int. rewrite Z.mod_small; lia.
Qed.

Lemma to_int_large z : 2 ^ 31 <= z < 2 ^ 32 -> to_int z = z - 2 ^ 32.
Proof.
  intros H. unfold to_int.
  rewrite <- (Z.mod_add _ (-1) (2 ^ 32)) by lia.
  rewrite Z.mod_small; lia.
Qed.

(** The formatted messages start with a literal, so what [snprintf] stores
    is never empty. *)
Lemma snprintf_literal_nonempty c text :
  String.substring 0 255 (String c text) <> EmptyString.
Proof. simpl. discriminate. Qed.

(** X6.  A soft status is not an error.  On a session without a latched
    error, when the engine returns [OCSD_OK] or
    [OCSD_ERR_UNSUPP_DECODE_PKT] and a consumed count below 2^31, the feed
    call makes exactly one engine call, with the length narrowed to 32
    bits, returns that count, and writes nothing to the session beyond what
    the callbacks did; the stub returns [Ok] with the count. *)
Theorem decode_soft_status_reports_count err_str dec data data_len
    data_index reply :
  error_flag dec = 0 ->
  reply_err reply = OCSD_OK \/
  reply_err reply = OCSD_ERR_UNSUPP_DECODE_PKT ->
  0 <= reply_bytes_used reply < 2 ^ 31 ->
  mtrace_opencsd_decode err_str dec data data_len data_index reply
    = (deliver_elems dec (reply_elems reply), reply_bytes_used reply,
       [call_ocsd_dt_process_data (dcd_tree dec) OCSD_OP_DATA data_index
          (data_len mod 2 ^ 32) data]) /\
  (forall off len index,
     snd (fst (caml_mtrace_opencsd_decode err_str dec data off len index
                 reply))
       = Ok (reply_bytes_used reply)).
Proof.
  intros Hflag Herr Hbytes.
  assert (H : forall d l i,
    mtrace_opencsd_decode err_str dec d l i reply
      = (deliver_elems dec (reply_elems reply), reply_bytes_used reply,
         [call_ocsd_dt_process_data (dcd_tree dec) OCSD_OP_DATA i
            (l mod 2 ^ 32) d])).
  { intros d l i. unfold mtrace_opencsd_decode. rewrite Hflag.
    rewrite to_int_small by done.
    by destruct Herr as [-> | ->]. }
  split; [apply H|].
  intros off len index. unfold caml_mtrace_opencsd_decode. rewrite H.
  simpl. destruct (Z.ltb_spec (reply_bytes_used reply) 0); [lia|done].
Qed.

Lemma decode_soft_status_reports_count_witness :
  mtrace_opencsd_decode sample_err_str sample_session [] 16 64 sample_reply
    = (deliver_elems sample_session (reply_elems sample_reply),
       reply_bytes_used sample_reply,
       [call_ocsd_dt_process_data (dcd_tree sample_session) OCSD_OP_DATA 64
          (16 mod 2 ^ 32) []]) /\
  (forall off len index,
     snd (fst (caml_mtrace_opencsd_decode sample_err_str sample_session []
                 off len index sample_reply))
       = Ok (reply_bytes_used sample_reply)).
Proof.
  apply (decode_soft_status_reports_count sample_err_str sample_session []
           16 64 sample_reply).
  - reflexivity.
  - by left.
  - vm_compute. split; congruence.
Defined.

(** X7.  A consumed count of 2^31 or more comes back negative.  On a session
    without a latched error, when the engine returns a non-fatal status and
    a count in the upper half of [uint32_t], the conversion to [int] makes
    the feed call return [count - 2^32]; nothing is latched by the call,
    yet the stub, testing the sign, returns [Error] with whatever the
    message buffer holds. *)
Theorem decode_large_count_is_negative err_str dec data off len index
    reply :
  error_flag dec = 0 ->
  reply_err reply = OCSD_OK \/
  reply_err reply = OCSD_ERR_UNSUPP_DECODE_PKT ->
  2 ^ 31 <= reply_bytes_used reply < 2 ^ 32 ->
  caml_mtrace_opencsd_decode err_str dec data off len index reply
    = (deliver_elems dec (reply_elems reply),
       Error (error_msg (deliver_elems dec (reply_elems reply))),
       [call_ocsd_dt_process_data (dcd_tree dec) OCSD_OP_DATA
          (to_uint64 index) (to_uint32 (to_uint64 len))
          (drop (Z.to_nat off) data)]) /\
  snd (fst (mtrace_opencsd_decode err_str dec data len index reply))
    = reply_bytes_used reply - 2 ^ 32.
Proof.
  intros Hflag Herr Hbytes.
  assert (H : forall d l i,
    mtrace_opencsd_decode err_str dec d l i reply
      = (deliver_elems dec (reply_elems reply),
         reply_bytes_used reply - 2 ^ 32,
         [call_ocsd_dt_process_data (dcd_tree dec) OCSD_OP_DATA i
            (to_uint32 l) d])).
  { intros d l i. unfold mtrace_opencsd_decode. rewrite Hflag.
    rewrite to_int_large by done.
    by destruct Herr as [-> | ->]. }
  split; [|by rewrite H].
  unfold caml_mtrace_opencsd_decode. rewrite H.
  destruct (Z.ltb_spec (reply_bytes_used reply - 2 ^ 32) 0); [done|lia].
Qed.

Lemma decode_large_count_is_negative_witness :
  caml_mtrace_opencsd_decode sample_err_str sample_session [] 0 16 64
    {| reply_elems := []; reply_err := OCSD_OK;
       reply_bytes_used := 2 ^ 31 |}
    = (sample_session, Error EmptyString,
       [call_ocsd_dt_process_data 1 OCSD_OP_DATA 64 16 []]) /\
  snd (fst (mtrace_opencsd_decode sample_err_str sample_session [] 16 64
              {| reply_elems := []; reply_err := OCSD_OK;
                 reply_bytes_used := 2 ^ 31 |}))
    = 2 ^ 31 - 2 ^ 32.
Proof.
  apply (decode_large_count_is_negative sample_err_str sample_session [] 0
           16 64
           {| reply_elems := []; reply_err := OCSD_OK;
              reply_bytes_used := 2 ^ 31 |}).
  - reflexivity.
  - by left.
  - vm_compute. split; congruence.
Defined.

(** X8.  A fatal status from feed latches the session.  On a session
    without a latched error, when the engine returns any status other than
    [OCSD_OK] and [OCSD_ERR_UNSUPP_DECODE_PKT], the feed call returns -1,
    sets the flag to 1 and stores a message naming the stream index and the
    engine's rendering of the status, replacing whatever a callback may have
    stored during the call; the events queued by the callbacks are kept;
    the stub returns [Error] with that message; and the next feed call
    returns -1 without reaching the engine. *)
Theorem decode_fatal_status_latches err_str dec data data_len data_index
    reply :
  error_flag dec = 0 ->
  reply_err reply <> OCSD_OK ->
  reply_err reply <> OCSD_ERR_UNSUPP_DECODE_PKT ->
  let msg :=
    String.substring 0 255
      (String.append "opencsd: decode error at index "
         (String.append (decimal data_index)
            (String.append ": " (err_str (reply_err reply))))) in
  let dec' :=
    fst (fst (mtrace_opencsd_decode err_str dec data data_len data_index
                reply)) in
  mtrace_opencsd_decode err_str dec data data_len data_index reply
    = (dec', -1,
       [call_ocsd_dt_process_data (dcd_tree dec) OCSD_OP_DATA data_index
          (data_len mod 2 ^ 32) data]) /\
  error_flag dec' = 1 /\
  error_msg dec' = msg /\ msg <> EmptyString /\
  same_queue dec' (deliver_elems dec (reply_elems reply)) /\
  (forall data2 len2 index2 reply2,
     mtrace_opencsd_decode err_str dec' data2 len2 index2 reply2
       = (dec', -1, [])) /\
  (forall off len,
     snd (fst (caml_mtrace_opencsd_decode err_str dec data off len
                 data_index reply))
       = Error (String.substring 0 255
                  (String.append "opencsd: decode error at index "
                     (String.append (decimal (to_uint64 data_index))
                        (String.append ": " (err_str (reply_err reply))))))).
Proof.
  intros Hflag Hok Hsoft msg dec'.
  assert (H : forall d l i,
    mtrace_opencsd_decode err_str dec d l i reply
      = (set_error_flag
           (snprintf_error_msg (deliver_elems dec (reply_elems reply))
              (String.append "opencsd: decode error at index "
                 (String.append (decimal i)
                    (String.append ": " (err_str (reply_err reply))))))
           1,
         -1,
         [call_ocsd_dt_process_data (dcd_tree dec) OCSD_OP_DATA i
            (to_uint32 l) d])).
  { intros d l i. unfold mtrace_opencsd_decode. rewrite Hflag.
    by rewrite (ocsd_err_eqb_neq _ _ Hok), (ocsd_err_eqb_neq _ _ Hsoft). }
  subst dec'. rewrite H. simpl.
  split; [done|]. split; [done|]. split; [done|].
  split; [apply snprintf_literal_nonempty|]. split; [done|].
  split.
  - intros. by apply mtrace_opencsd_decode_errored.
  - intros off len. unfold caml_mtrace_opencsd_decode. by rewrite H.
Qed.

Lemma decode_fatal_status_latches_witness :
  let msg :=
    String.substring 0 255
      (String.append "opencsd: decode error at index "
         (String.append (decimal 64)
            (String.append ": "
               (sample_err_str (reply_err sample_fatal_reply))))) in
  let dec' :=
    fst (fst (mtrace_opencsd_decode sample_err_str sample_session [] 16 64
                sample_fatal_reply)) in
  mtrace_opencsd_decode sample_err_str sample_session [] 16 64
                        sample_fatal_reply
    = (dec', -1,
       [call_ocsd_dt_process_data (dcd_tree sample_session) OCSD_OP_DATA 64
          (16 mod 2 ^ 32) []]) /\
  error_flag dec' = 1 /\
  error_msg dec' = msg /\ msg <> EmptyString /\
  same_queue dec'
    (deliver_elems sample_session (reply_elems sample_fatal_reply)) /\
  (forall data2 len2 index2 reply2,
     mtrace_opencsd_decode sample_err_str dec' data2 len2 index2 reply2
       = (dec', -1, [])) /\
  (forall off len,
     snd (fst (caml_mtrace_opencsd_decode sample_err_str sample_session []
                 off len 64 sample_fatal_reply))
       = Error (String.substring 0 255
                  (String.append "opencsd: decode error at index "
                     (String.append (decimal (to_uint64 64))
                        (String.append ": "
                           (sample_err_str
                              (reply_err sample_fatal_reply))))))).
Proof.
  apply (decode_fatal_status_latches sample_err_str sample_session [] 16 64
           sample_fatal_reply); [reflexivity|discriminate|discriminate].
Defined.

(** X9.  What flush returns.  On a session without a latched error, flush
    makes one engine call with no data, returns 0 exactly when the engine
    answers [OCSD_OK] or [OCSD_ERR_FLUSH_COMPLETE] and -1 otherwise (so the
    status [OCSD_ERR_UNSUPP_DECODE_PKT], which feed tolerates, is a failure
    of flush), the stub returns [Ok] exactly in the first case, and the
    session afterwards is the one the callbacks left: the events the engine
    emits during the flush are queued. *)
Theorem flush_result err_str dec reply :
  error_flag dec = 0 ->
  let '(dec', rc, calls) := mtrace_opencsd_flush dec reply in
  dec' = deliver_elems dec (reply_elems reply) /\
  calls = [call_ocsd_dt_process_data (dcd_tree dec) OCSD_OP_FLUSH 0 0 []] /\
  (rc = 0 \/ rc = -1) /\
  (rc = 0 <->
   reply_err reply = OCSD_OK \/ reply_err reply = OCSD_ERR_FLUSH_COMPLETE) /\
  (snd (fst (caml_mtrace_opencsd_flush dec reply)) = Ok tt <-> rc = 0) /\
  (reply_err reply = OCSD_ERR_UNSUPP_DECODE_PKT ->
   rc = -1 /\
   0 <= snd (fst (mtrace_opencsd_decode err_str dec [] 0 0
                    {| reply_elems := reply_elems reply;
                       reply_err := reply_err reply;
                       reply_bytes_used := 0 |}))).
Proof.
  intros Hflag.
  unfold caml_mtrace_opencsd_flush, mtrace_opencsd_decode,
    mtrace_opencsd_flush.
  rewrite Hflag. simpl.
  split; [done|]. split; [done|].
  destruct (reply_err reply) as [| | |code] eqn:Herr; simpl;
    repeat split; try done;
    try (intros; by left); try (intros; by right);
    try (by intros [|]); try (intros; discriminate).
Qed.

Lemma flush_result_witness :
  let '(dec', rc, calls) := mtrace_opencsd_flush sample_session
                              sample_fatal_reply in
  dec' = deliver_elems sample_session (reply_elems sample_fatal_reply) /\
  calls = [call_ocsd_dt_process_data (dcd_tree sample_session)
             OCSD_OP_FLUSH 0 0 []] /\
  (rc = 0 \/ rc = -1) /\
  (rc = 0 <->
   reply_err sample_fatal_reply = OCSD_OK \/
   reply_err sample_fatal_reply = OCSD_ERR_FLUSH_COMPLETE) /\
  (snd (fst (caml_mtrace_opencsd_flush sample_session sample_fatal_reply))
     = Ok tt <-> rc = 0) /\
  (reply_err sample_fatal_reply = OCSD_ERR_UNSUPP_DECODE_PKT ->
   rc = -1 /\
   0 <= snd (fst (mtrace_opencsd_decode sample_err_str sample_session [] 0 0
                    {| reply_elems := reply_elems sample_fatal_reply;
                       reply_err := reply_err sample_fatal_reply;
                       reply_bytes_used := 0 |}))).
Proof.
  exact (flush_result sample_err_str sample_session sample_fatal_reply
           eq_refl).
Defined.

(* ---------------------------------------------------------------------- *)
(** ** Image registration, creation and destruction *)



(** X11.  An empty section at address 0 is registered as the whole address
    space.  With [size = 0] the end address [load_address + size - 1] is
    computed in [uint64_t]: it is [load_address - 1], below the start, for
    a positive [load_address], and wraps to 2^64 - 1 for
    [load_address = 0]. *)
Theorem add_image_empty_section err_str dec filename load_address offset
    err :
  0 <= load_address < 2 ^ 64 ->
  snd (mtrace_opencsd_add_image err_str dec filename load_address offset 0
                                err)
    = [call_ocsd_dt_add_named_mem_acc (dcd_tree dec) load_address
         (if load_address =? 0 then 2 ^ 64 - 1 else load_address - 1)
         filename offset].
Proof.
  intros Hload.
  assert (Hen : to_uint64 (load_address + 0 - 1)
                = if load_address =? 0 then 2 ^ 64 - 1
                  else load_address - 1).
  { unfold to_uint64. destruct (Z.eqb_spec load_address 0) as [->|Hne].
    - reflexivity.
    - rewrite Z.add_0_r. apply Z.mod_small. lia. }
  unfold mtrace_opencsd_add_image. rewrite Hen.
  by destruct (negb (ocsd_err_eqb err OCSD_OK)).
Qed.

Lemma add_image_empty_section_witness :
  snd (mtrace_opencsd_add_image sample_err_str sample_session "a.out" 0 0 0
                                OCSD_OK)
    = [call_ocsd_dt_add_named_mem_acc (dcd_tree sample_session) 0
         (if 0 =? 0 then 2 ^ 64 - 1 else 0 - 1) "a.out" 0].
Proof.
  apply (add_image_empty_section sample_err_str sample_session "a.out" 0 0
           OCSD_OK).
  vm_compute. split; congruence.
Defined.

(** The outcomes of [mtrace_opencsd_create]. *)
Lemma mtrace_opencsd_create_cases err_str protocol trace_id arch_version
    env :
  ((env_calloc_ok env = false \/ env_malloc env = None \/
    env_dcd_tree env = C_API_INVALID_TREE_HANDLE) /\
   fst (mtrace_opencsd_create err_str protocol trace_id arch_version env)
     = None) \/
  (env_calloc_ok env = true /\ env_malloc env <> None /\
   env_dcd_tree env <> C_API_INVALID_TREE_HANDLE /\
   exists dec,
     fst (mtrace_opencsd_create err_str protocol trace_id arch_version env)
       = Some dec /\
     dcd_tree dec = env_dcd_tree env /\
     ((env_decoder_err env = OCSD_OK /\ error_flag dec = 0) \/
      (env_decoder_err env <> OCSD_OK /\ error_flag dec = 1))).
Proof.
  unfold mtrace_opencsd_create.
  destruct (env_calloc_ok env); [|left; split; [by left|done]].
  destruct (env_malloc env) as [junk|];
    [|left; split; [right; by left|done]].
  cbn [negb dcd_tree].
  destruct (Z.eqb_spec (env_dcd_tree env) C_API_INVALID_TREE_HANDLE)
    as [Hinv|Hval]; [left; split; [right; by right|done]|].
  right. split; [done|]. split; [done|]. split; [done|].
  destruct (select_decoder arch_version) as [name cfg].
  destruct (ocsd_err_eqb (env_decoder_err env) OCSD_OK) eqn:Herr;
    cbn [negb fst].
  - apply ocsd_err_eqb_eq in Herr.
    eexists. split; [reflexivity|]. split; [reflexivity|]. by left.
  - eexists. split; [reflexivity|]. split; [reflexivity|]. right.
    split; [|reflexivity].
    intros Heq. apply ocsd_err_eqb_eq in Heq. congruence.
Qed.

(** X12.  When create returns the null pointer, and when the stub raises.
    [mtrace_opencsd_create] returns [NULL] exactly when the session record
    or the 256-slot block cannot be allocated or the engine returns the
    invalid tree handle; the stub raises [Failure] in exactly these cases
    and returns the session otherwise, and the returned session reports an
    error exactly when the engine refused the decoder. *)
Theorem create_null_iff err_str protocol trace_id arch_version env :
  (fst (mtrace_opencsd_create err_str protocol trace_id arch_version env)
     = None <->
   env_calloc_ok env = false \/ env_malloc env = None \/
   env_dcd_tree env = C_API_INVALID_TREE_HANDLE) /\
  (fst (caml_mtrace_opencsd_create err_str protocol trace_id arch_version
          env)
     = Failure "opencsd_create: allocation failed" <->
   env_calloc_ok env = false \/ env_malloc env = None \/
   env_dcd_tree env = C_API_INVALID_TREE_HANDLE) /\
  (forall dec,
     fst (caml_mtrace_opencsd_create err_str protocol trace_id arch_version
            env) = Returned dec ->
     (caml_mtrace_opencsd_has_error dec = true <->
      env_decoder_err env <> OCSD_OK) /\
     dcd_tree dec = env_dcd_tree env).
Proof.
  unfold caml_mtrace_opencsd_create, caml_mtrace_opencsd_has_error,
    mtrace_opencsd_has_error.
  destruct (mtrace_opencsd_create_cases err_str (to_int protocol)
              (trace_id mod 2 ^ 8) (to_int arch_version) env)
    as [[Hfail Hnone]|(Hc & Hm & Ht & dec & Hsome & Htree & Hflag)];
    destruct (mtrace_opencsd_create_cases err_str protocol trace_id
                arch_version env)
      as [[Hfail' Hnone']|(Hc' & Hm' & Ht' & dec' & Hsome' & _)].
  - destruct (mtrace_opencsd_create err_str (to_int protocol) _ _ env)
      as [r calls]. simpl in Hnone. subst r. rewrite Hnone'.
    repeat split; try done.
  - exfalso. destruct Hfail as [H|[H|H]]; congruence.
  - exfalso. destruct Hfail' as [H|[H|H]]; congruence.
  - destruct (mtrace_opencsd_create err_str (to_int protocol) _ _ env)
      as [r calls]. simpl in Hsome. subst r. rewrite Hsome'. simpl.
    split; [split; [discriminate|intros [H|[H|H]]; congruence]|].
    split; [split; [discriminate|intros [H|[H|H]]; congruence]|].
    intros d [= <-]. split; [|done].
    destruct Hflag as [[Hok ->]|[Herr ->]]; simpl; split; done.
Qed.

(** X13.  Create and destroy release exactly what was acquired.  Whatever
    the allocator and the engine answer during create, the calls made by
    create followed by those of the finalizer on create's result free the
    session record exactly once if it was allocated, the event block
    exactly once if it was allocated, and destroy a decode tree exactly
    once, with the handle the engine returned, if a valid tree was created;
    nothing is released otherwise, and destroying the null pointer does
    nothing. *)
Theorem create_then_destroy_is_balanced err_str protocol trace_id
    arch_version env :
  let r :=
    mtrace_opencsd_create err_str protocol trace_id arch_version env in
  let all := snd r ++ decoder_finalize (fst r) in
  let has_dec := env_calloc_ok env in
  let has_buf :=
    has_dec && match env_malloc env with Some _ => true | None => false end
  in
  let has_tree :=
    has_buf && negb (env_dcd_tree env =? C_API_INVALID_TREE_HANDLE) in
  count_calls is_free_dec all = (if has_dec then 1 else 0)%nat /\
  count_calls is_free_event_buf all = (if has_buf then 1 else 0)%nat /\
  count_calls is_destroy_dcd_tree all = (if has_tree then 1 else 0)%nat /\
  (forall h, In (call_ocsd_destroy_dcd_tree h) all ->
             h = env_dcd_tree env) /\
  mtrace_opencsd_destroy None = [].
Proof.
  unfold mtrace_opencsd_create.
  destruct (env_calloc_ok env); [|by repeat split].
  destruct (env_malloc env) as [junk|];
    [|repeat split; try done; by intros h [|[]]].
  cbn [negb dcd_tree andb].
  destruct (env_dcd_tree env =? C_API_INVALID_TREE_HANDLE) eqn:Htree.
  { repeat split; try done. by intros h [|[|[|[]]]]. }
  destruct (select_decoder arch_version) as [name cfg].
  destruct (negb (ocsd_err_eqb (env_decoder_err env) OCSD_OK));
    cbn [fst snd decoder_finalize mtrace_opencsd_destroy dcd_tree
         set_error_flag snprintf_error_msg set_error_msg];
    rewrite Htree; cbn [negb app];
    (repeat split; try done;
     intros h [|[|[|[H|[|[|[]]]]]]]; try done; by injection H).
Qed.

Lemma length_substring_le n m s :
  (String.length (String.substring m n s) <= n)%nat.
Proof.
  revert m n. induction s as [|c s IH]; intros m n.
  - destruct m, n; simpl; lia.
  - destruct m as [|m]; [destruct n as [|n]|]; simpl.
    + lia.
    + specialize (IH O n). lia.
    + apply IH.
Qed.

Lemma event_buf_push_same_session_state dec ev a :
  same_session_state (fst (event_buf_push dec ev a)) dec.
Proof.
  unfold event_buf_push.
  destruct (_ =? event_buf_tail dec); [|done].
  destruct (realloc _ _ a); [|done].
  by destruct (event_buf_head dec <? event_buf_tail dec).
Qed.

Lemma snprintf_error_state_ok dec c text :
  error_state_ok (set_error_flag (snprintf_error_msg dec (String c text)) 1).
Proof.
  split; [by right|]. split.
  - apply length_substring_le.
  - intros _. apply snprintf_literal_nonempty.
Qed.

Lemma gen_elem_callback_error_state dec elem a :
  error_state_ok dec ->
  error_state_ok (fst (gen_elem_callback dec elem a)).
Proof.
  intros Hok. unfold gen_elem_callback.
  destruct (gen_elem_event elem) as [ev|]; [|done].
  pose proof (event_buf_push_same_session_state dec ev a) as (_ & Hf & Hm).
  destruct (event_buf_push dec ev a) as [d rc]. simpl in *.
  destruct (negb (rc =? 0)); simpl.
  - apply snprintf_error_state_ok.
  - unfold error_state_ok in *. by rewrite Hf, Hm.
Qed.

Lemma deliver_elems_error_state elems : forall dec,
  error_state_ok dec -> error_state_ok (deliver_elems dec elems).
Proof.
  induction elems as [|[elem a] elems IH]; intros dec Hok; simpl; [done|].
  pose proof (gen_elem_callback_error_state dec elem a Hok) as H.
  destruct (gen_elem_callback dec elem a) as [d []]; simpl in *; auto.
Qed.

Lemma api_step_error_state err_str dec c :
  error_state_ok dec ->
  error_state_ok (fst (fst (api_step err_str dec c))).
Proof.
  intros Hok.
  destruct c as [f la off sz err|data len idx reply|reply| | |]; simpl;
    try done.
  - unfold mtrace_opencsd_add_image.
    destruct (negb (ocsd_err_eqb err OCSD_OK)); [|done].
    destruct Hok as (Hflag & _ & _).
    split; [done|]. split; [apply length_substring_le|].
    intros _. apply snprintf_literal_nonempty.
  - unfold mtrace_opencsd_decode.
    destruct (negb (error_flag dec =? 0)); [done|].
    pose proof (deliver_elems_error_state (reply_elems reply) dec Hok).
    destruct (negb _ && negb _); [|done].
    apply snprintf_error_state_ok.
  - unfold mtrace_opencsd_flush.
    destruct (negb (error_flag dec =? 0)); [done|].
    by apply deliver_elems_error_state.
  - unfold mtrace_opencsd_next_event, event_buf_pop.
    by destruct (event_buf_head dec =? event_buf_tail dec).
Qed.

Lemma mtrace_opencsd_create_error_state err_str protocol trace_id
    arch_version env dec calls :
  mtrace_opencsd_create err_str protocol trace_id arch_version env
    = (Some dec, calls) ->
  error_state_ok dec /\
  dcd_tree dec = env_dcd_tree env /\
  dcd_tree dec <> C_API_INVALID_TREE_HANDLE.
Proof.
  unfold mtrace_opencsd_create.
  destruct (env_calloc_ok env); [|discriminate].
  destruct (env_malloc env) as [junk|]; [|discriminate].
  cbn [negb dcd_tree].
  destruct (Z.eqb_spec (env_dcd_tree env) C_API_INVALID_TREE_HANDLE);
    [discriminate|].
  destruct (select_decoder arch_version) as [name cfg].
  destruct (negb (ocsd_err_eqb (env_decoder_err env) OCSD_OK));
    intros [= <- _].
  - split; [apply snprintf_error_state_ok|done].
  - split; [|done]. split; [by left|]. split; [simpl; lia|done].
Qed.

(** X14.  The error state of every reachable session is well formed.  For
    every session returned by create and every sequence of API calls on it,
    the error flag is 0 or 1, the message is at most 255 characters long
    (it fits the 256-byte buffer with its terminator, however long the file
    name or the engine's text), and an errored session always carries a
    non-empty message. *)
Theorem reachable_error_state_ok err_str protocol trace_id arch_version env
    dec c calls :
  mtrace_opencsd_create err_str protocol trace_id arch_version env
    = (Some dec, c) ->
  error_state_ok (fst (session_run err_str dec calls)).
Proof.
  intros Hcreate.
  destruct (mtrace_opencsd_create_error_state _ _ _ _ _ _ _ Hcreate)
    as (Hok & _).
  clear Hcreate. revert dec Hok.
  induction calls as [|call calls IH]; intros dec Hok; simpl; [done|].
  pose proof (api_step_error_state err_str dec call Hok) as Hok1.
  destruct (api_step err_str dec call) as [[dec1 r] ext].
  specialize (IH dec1 Hok1).
  by destruct (session_run err_str dec1 calls).
Qed.

Lemma reachable_error_state_ok_witness :
  error_state_ok
    (fst (session_run sample_err_str sample_session
            [api_add_image sample_long_name 0x400000 0 0x10000
               (OCSD_ERR_other 5);
             api_decode [] 16 64 sample_fatal_reply])).
Proof.
  apply (reachable_error_state_ok sample_err_str 0 0 4 sample_env
           sample_session
           [call_ocsd_create_dcd_tree; call_ocsd_dt_set_gen_elem_outfn 1;
            call_ocsd_dt_create_decoder 1 OCSD_BUILTIN_DCD_ETMV4I
              (ocsd_etmv4_cfg 0x28000ea1 0x4100f403 0x00000488 0
                              0x000000c1)]).
  vm_compute. reflexivity.
Defined.

Example long_file_name_is_truncated :
  String.length
    (error_msg
       (fst (fst (mtrace_opencsd_add_image sample_err_str sample_session
                    sample_long_name 0x400000 0 0x10000
                    (OCSD_ERR_other 5)))))
  = 255%nat.
Proof. vm_compute. reflexivity. Qed.

Lemma gen_elem_callback_cap dec elem a :
  queue_wf dec ->
  event_buf_cap (fst (gen_elem_callback dec elem a)) = event_buf_cap dec \/
  event_buf_cap (fst (gen_elem_callback dec elem a)) = event_buf_cap dec * 2.
Proof.
  intros Hwf. unfold gen_elem_callback.
  destruct (gen_elem_event elem) as [ev|]; [|by left].
  pose proof (event_buf_push_cap dec ev a Hwf) as Hcap.
  destruct (event_buf_push dec ev a) as [d rc]. simpl in *.
  destruct (negb (rc =? 0)); simpl; tauto.
Qed.

Lemma deliver_elems_cap elems : forall dec,
  queue_wf dec ->
  exists k : nat,
    event_buf_cap (deliver_elems dec elems)
      = event_buf_cap dec * 2 ^ Z.of_nat k.
Proof.
  induction elems as [|[elem a] elems IH]; intros dec Hwf; simpl.
  - exists O. simpl. lia.
  - pose proof (gen_elem_callback_cap dec elem a Hwf) as Hcap.
    destruct (gen_elem_callback_spec dec elem a Hwf) as (Hwf1 & _).
    destruct (gen_elem_callback dec elem a) as [d []]; simpl in *.
    + destruct (IH d Hwf1) as (k & Hk).
      destruct Hcap as [Hc|Hc]; rewrite Hk, Hc.
      * by exists k.
      * exists (S k). rewrite Nat2Z.inj_succ, Z.pow_succ_r by lia. lia.
    + destruct Hcap as [Hc|Hc]; rewrite Hc.
      * exists O. simpl. lia.
      * exists 1%nat. simpl. lia.
Qed.

Lemma api_step_ring err_str dec c :
  queue_wf dec ->
  dcd_tree (fst (fst (api_step err_str dec c))) = dcd_tree dec /\
  exists k : nat,
    event_buf_cap (fst (fst (api_step err_str dec c)))
      = event_buf_cap dec * 2 ^ Z.of_nat k.
Proof.
  intros Hwf.
  assert (Hsame : forall d : mtrace_opencsd_decoder_t,
            event_buf_cap d = event_buf_cap dec ->
            exists k : nat,
              event_buf_cap d = event_buf_cap dec * 2 ^ Z.of_nat k).
  { intros d ->. exists O. simpl. lia. }
  destruct (deliver_elems_spec
              (match c with
               | api_decode _ _ _ reply | api_flush reply =>
                   reply_elems reply
               | _ => []
               end) dec Hwf) as (_ & Htree & _).
  destruct c as [f la off sz err|data len idx reply|reply| | |]; simpl;
    try (split; [done|by apply Hsame]).
  - unfold mtrace_opencsd_add_image.
    destruct (negb (ocsd_err_eqb err OCSD_OK)); simpl;
      (split; [done|by apply Hsame]).
  - unfold mtrace_opencsd_decode.
    destruct (negb (error_flag dec =? 0)); simpl;
      [split; [done|by apply Hsame]|].
    destruct (negb _ && negb _); simpl;
      (split; [done|by apply deliver_elems_cap]).
  - unfold mtrace_opencsd_flush.
    destruct (negb (error_flag dec =? 0)); simpl;
      [split; [done|by apply Hsame]|].
    split; [done|by apply deliver_elems_cap].
  - unfold mtrace_opencsd_next_event.
    destruct (event_buf_pop_frame dec) as (_ & Hcap & _).
    unfold event_buf_pop in *.
    destruct (event_buf_head dec =? event_buf_tail dec); simpl in *;
      (split; [done|by apply Hsame]).
Qed.

(** X15.  Every reachable session keeps the ring invariant, its tree handle
    and a capacity of 256 times a power of two.  For every session returned
    by create and every sequence of API calls on it (registrations, feeds,
    flushes, drains, in any order, whatever the engine and the allocator
    answer): the block has [cap] slots with head and tail inside it, the
    queue holds fewer than [cap] events, the capacity is 256 doubled some
    number of times, and the tree handle is the valid one the engine
    returned at creation. *)
Theorem reachable_session_ring_invariant err_str protocol trace_id
    arch_version env dec c calls :
  mtrace_opencsd_create err_str protocol trace_id arch_version env
    = (Some dec, c) ->
  let dec' := fst (session_run err_str dec calls) in
  queue_wf dec' /\
  Z.of_nat (length (queue_contents dec')) < event_buf_cap dec' /\
  (exists k : nat, event_buf_cap dec' = 256 * 2 ^ Z.of_nat k) /\
  dcd_tree dec' = env_dcd_tree env /\
  dcd_tree dec' <> C_API_INVALID_TREE_HANDLE.
Proof.
  intros Hcreate dec'.
  destruct (mtrace_opencsd_create_error_state _ _ _ _ _ _ _ Hcreate)
    as (_ & Htree & Hvalid).
  destruct (mtrace_opencsd_create_wf _ _ _ _ _ _ _ Hcreate)
    as (Hwf & _ & Hcap).
  assert (Hinv : queue_wf dec' /\ dcd_tree dec' = dcd_tree dec /\
                 exists k : nat,
                   event_buf_cap dec' = event_buf_cap dec * 2 ^ Z.of_nat k).
  { subst dec'. clear Hcreate Htree Hvalid Hcap. revert dec Hwf.
    induction calls as [|call calls IH]; intros dec Hwf; simpl.
    - split; [done|]. split; [done|]. exists O. simpl. lia.
    - pose proof (api_step_wf err_str dec call Hwf) as Hwf1.
      destruct (api_step_ring err_str dec call Hwf) as (Ht1 & k1 & Hk1).
      destruct (api_step err_str dec call) as [[dec1 r] ext].
      simpl in *.
      destruct (IH dec1 Hwf1) as (Hwf2 & Ht2 & k2 & Hk2).
      destruct (session_run err_str dec1 calls) as [dec2 obs].
      simpl in *. split; [done|]. split; [congruence|].
      exists (k1 + k2)%nat.
      rewrite Hk2, Hk1, Nat2Z.inj_add, Z.pow_add_r by lia. lia. }
  destruct Hinv as (Hwf' & Htree' & k & Hk).
  split; [done|]. split.
  { pose proof (length_queue_contents_bound dec' Hwf'). lia. }
  split; [exists k; by rewrite Hk, Hcap|].
  split; congruence.
Qed.

Lemma reachable_session_ring_invariant_witness :
  let dec' := fst (session_run sample_err_str sample_session sample_calls) in
  queue_wf dec' /\
  Z.of_nat (length (queue_contents dec')) < event_buf_cap dec' /\
  (exists k : nat, event_buf_cap dec' = 256 * 2 ^ Z.of_nat k) /\
  dcd_tree dec' = env_dcd_tree sample_env /\
  dcd_tree dec' <> C_API_INVALID_TREE_HANDLE.
Proof.
  apply (reachable_session_ring_invariant sample_err_str 0 0 4 sample_env
           sample_session
           [call_ocsd_create_dcd_tree; call_ocsd_dt_set_gen_elem_outfn 1;
            call_ocsd_dt_create_decoder 1 OCSD_BUILTIN_DCD_ETMV4I
              (ocsd_etmv4_cfg 0x28000ea1 0x4100f403 0x00000488 0
                              0x000000c1)]).
  vm_compute. reflexivity.
Defined.

(* ---------------------------------------------------------------------- *)
(** ** The fields of an event, in C and in OCaml *)

Lemma to_int_range z : - 2 ^ 31 <= to_int z < 2 ^ 31.
Proof.
  unfold to_int.
  pose proof (Z.mod_pos_bound (z + 2 ^ 31) (2 ^ 32) eq_refl). lia.
Qed.

Lemma to_int64_small z : 0 <= z < 2 ^ 63 -> to_int64 z = z.
Proof.
  intros H. unfold to_int64. rewrite Z.mod_small; lia.
Qed.

Lemma to_int64_large z : 2 ^ 63 <= z < 2 ^ 64 -> to_int64 z = z - 2 ^ 64.
Proof.
  intros H. unfold to_int64.
  rewrite <- (Z.mod_add _ (-1) (2 ^ 64)) by lia.
  rewrite Z.mod_small; lia.
Qed.

Lemma to_int64_inj a b :
  0 <= a < 2 ^ 64 -> 0 <= b < 2 ^ 64 -> to_int64 a = to_int64 b -> a = b.
Proof.
  intros Ha Hb.
  destruct (Z.lt_ge_cases a (2 ^ 63)); destruct (Z.lt_ge_cases b (2 ^ 63));
    rewrite ?(to_int64_small a), ?(to_int64_small b),
            ?(to_int64_large a), ?(to_int64_large b) by lia; lia.
Qed.

Lemma to_int_inj a b :
  0 <= a < 2 ^ 32 -> 0 <= b < 2 ^ 32 -> to_int a = to_int b -> a = b.
Proof.
  intros Ha Hb.
  destruct (Z.lt_ge_cases a (2 ^ 31)); destruct (Z.lt_ge_cases b (2 ^ 31));
    rewrite ?(to_int_small a), ?(to_int_small b),
            ?(to_int_large a), ?(to_int_large b) by lia; lia.
Qed.

(** X16.  The fields of a classified event.  For every element with fields
    in the range of their C types that the classifier accepts, the event's
    fields are in the range of theirs; it carries the element's timestamp
    and start address; an instruction range also carries the end address,
    and as [cpu] the context id converted to [int] (the id itself below
    2^31, the id minus 2^32 from there on); every other kind has [to_addr]
    and [cpu] zero; and every kind but the exception has
    [exception_number] zero. *)
Theorem classified_event_fields elem ev :
  elem_in_range elem ->
  gen_elem_event elem = Some ev ->
  event_in_range ev /\
  timestamp ev = elem_timestamp elem /\
  from_addr ev = elem_st_addr elem /\
  (elem_type elem = OCSD_GEN_TRC_ELEM_INSTR_RANGE ->
   to_addr ev = elem_en_addr elem /\
   (elem_context_ctxt_id elem < 2 ^ 31 ->
    cpu ev = elem_context_ctxt_id elem) /\
   (2 ^ 31 <= elem_context_ctxt_id elem ->
    cpu ev = elem_context_ctxt_id elem - 2 ^ 32)) /\
  (elem_type elem <> OCSD_GEN_TRC_ELEM_INSTR_RANGE ->
   to_addr ev = 0 /\ cpu ev = 0) /\
  (elem_type elem <> OCSD_GEN_TRC_ELEM_EXCEPTION ->
   exception_number ev = 0).
Proof.
  intros (Hst & Hen & Hctx & Hexc & Hts).
  destruct elem as [t i st en ctxt exc ts]. simpl in *.
  pose proof (to_int_range ctxt) as Hcpu.
  unfold gen_elem_event. simpl.
  destruct t; intros [= <-]; unfold event_in_range; simpl;
    rewrite ?to_uint32_small by done;
    (split; [lia|]); (split; [done|]); (split; [done|]);
    (split; [|split]); try done.
  intros _. split; [done|]. split; intros Hc.
  - apply to_int_small. lia.
  - apply to_int_large. lia.
Qed.

Lemma classified_event_fields_witness :
  let elem :=
    {| elem_type := OCSD_GEN_TRC_ELEM_INSTR_RANGE;
       elem_last_instr_type := OCSD_INSTR_BR;
       elem_st_addr := 0xffff000008081000;
       elem_en_addr := 0xffff000008081010;
       elem_context_ctxt_id := 0xffffffff;
       elem_exception_number := 0; elem_timestamp := 500 |} in
  let ev :=
    {| kind := MTRACE_CS_EVENT_CALL; timestamp := 500;
       from_addr := 0xffff000008081000; to_addr := 0xffff000008081010;
       cpu := -1; exception_number := 0 |} in
  event_in_range ev /\
  timestamp ev = elem_timestamp elem /\
  from_addr ev = elem_st_addr elem /\
  (elem_type elem = OCSD_GEN_TRC_ELEM_INSTR_RANGE ->
   to_addr ev = elem_en_addr elem /\
   (elem_context_ctxt_id elem < 2 ^ 31 ->
    cpu ev = elem_context_ctxt_id elem) /\
   (2 ^ 31 <= elem_context_ctxt_id elem ->
    cpu ev = elem_context_ctxt_id elem - 2 ^ 32)) /\
  (elem_type elem <> OCSD_GEN_TRC_ELEM_INSTR_RANGE ->
   to_addr ev = 0 /\ cpu ev = 0) /\
  (elem_type elem <> OCSD_GEN_TRC_ELEM_EXCEPTION ->
   exception_number ev = 0).
Proof.
  intros elem ev.
  apply (classified_event_fields elem ev).
  - repeat split; vm_compute; congruence.
  - vm_compute. reflexivity.
Defined.

Lemma kind_value_inj k1 k2 : kind_value k1 = kind_value k2 -> k1 = k2.
Proof. destruct k1, k2; simpl; congruence. Qed.

Lemma kind_value_range k : 0 <= kind_value k <= 6.
Proof. destruct k; simpl; lia. Qed.

(** X17.  The OCaml record loses nothing.  For every event whose fields are
    in the range of their C types, the record the stub builds holds: as
    kind the enumerator's number (0 for an instruction range up to 6 for an
    exception return); each of the three 64-bit fields (timestamp, start
    and end address) as the field itself below 2^63 and the field minus
    2^64 from there on, so addresses in the upper half of the address
    space reach OCaml as negative [int64] values; the [cpu] as it is; and
    the exception number as itself below 2^31 and itself minus 2^32 from
    there on.  The record therefore determines the event: two different
    events never give the same record. *)
Theorem caml_event_of_injective ev1 ev2 :
  event_in_range ev1 -> event_in_range ev2 ->
  caml_event_of ev1
    = {| EVENT_FIELD_KIND := kind_value (kind ev1);
         EVENT_FIELD_TIMESTAMP :=
           (if timestamp ev1 <? 2 ^ 63 then timestamp ev1
            else timestamp ev1 - 2 ^ 64);
         EVENT_FIELD_FROM_ADDR :=
           (if from_addr ev1 <? 2 ^ 63 then from_addr ev1
            else from_addr ev1 - 2 ^ 64);
         EVENT_FIELD_TO_ADDR :=
           (if to_addr ev1 <? 2 ^ 63 then to_addr ev1
            else to_addr ev1 - 2 ^ 64);
         EVENT_FIELD_CPU := cpu ev1;
         EVENT_FIELD_EXNO :=
           (if exception_number ev1 <? 2 ^ 31 then exception_number ev1
            else exception_number ev1 - 2 ^ 32) |} /\
  (kind_value (kind ev1) = 0 <->
   kind ev1 = MTRACE_CS_EVENT_INSTRUCTION_RANGE) /\
  (kind_value (kind ev1) = 1 <-> kind ev1 = MTRACE_CS_EVENT_CALL) /\
  (kind_value (kind ev1) = 2 <-> kind ev1 = MTRACE_CS_EVENT_RETURN) /\
  (kind_value (kind ev1) = 3 <-> kind ev1 = MTRACE_CS_EVENT_TRACE_ON) /\
  (kind_value (kind ev1) = 4 <-> kind ev1 = MTRACE_CS_EVENT_TRACE_OFF) /\
  (kind_value (kind ev1) = 5 <-> kind ev1 = MTRACE_CS_EVENT_EXCEPTION) /\
  (kind_value (kind ev1) = 6 <->
   kind ev1 = MTRACE_CS_EVENT_EXCEPTION_RET) /\
  (caml_event_of ev1 = caml_event_of ev2 -> ev1 = ev2).
Proof.
  intros (Hts1 & Hf1 & Ht1 & Hc1 & He1) (Hts2 & Hf2 & Ht2 & Hc2 & He2).
  pose proof (kind_value_range (kind ev1)) as Hk1.
  pose proof (kind_value_range (kind ev2)) as Hk2.
  assert (H64 : forall z, 0 <= z < 2 ^ 64 ->
            to_int64 z = if z <? 2 ^ 63 then z else z - 2 ^ 64).
  { intros z Hz. destruct (Z.ltb_spec z (2 ^ 63)).
    - apply to_int64_small. lia.
    - apply to_int64_large. lia. }
  assert (H32 : forall z, 0 <= z < 2 ^ 32 ->
            to_int z = if z <? 2 ^ 31 then z else z - 2 ^ 32).
  { intros z Hz. destruct (Z.ltb_spec z (2 ^ 31)).
    - apply to_int_small. lia.
    - apply to_int_large. lia. }
  split; [|split; [|split; [|split; [|split; [|split; [|split; [|split]]]]]]].
  - unfold caml_event_of.
    rewrite (to_int_small (kind_value (kind ev1))) by lia.
    by rewrite !H64, H32 by done.
  - by destruct (kind ev1).
  - by destruct (kind ev1).
  - by destruct (kind ev1).
  - by destruct (kind ev1).
  - by destruct (kind ev1).
  - by destruct (kind ev1).
  - by destruct (kind ev1).
  - destruct ev1 as [k1 ts1 f1 t1 c1 e1], ev2 as [k2 ts2 f2 t2 c2 e2].
    unfold caml_event_of. simpl in *.
    intros [= Hk Hts Hf Ht Hc He].
    apply to_int_inj in Hk; [|lia|lia].
    apply kind_value_inj in Hk.
    apply to_int64_inj in Hts; [|done|done].
    apply to_int64_inj in Hf; [|done|done].
    apply to_int64_inj in Ht; [|done|done].
    apply to_int_inj in He; [|done|done].
    congruence.
Qed.

Lemma caml_event_of_injective_witness :
  let ev1 :=
    {| kind := MTRACE_CS_EVENT_EXCEPTION; timestamp := 500;
       from_addr := 0xffff000008081000; to_addr := 0xffff000008081010;
       cpu := -1; exception_number := 0x80000003 |} in
  let ev2 := sample_event 1 in
  caml_event_of ev1
    = {| EVENT_FIELD_KIND := 5; EVENT_FIELD_TIMESTAMP := 500;
         EVENT_FIELD_FROM_ADDR := 0xffff000008081000 - 2 ^ 64;
         EVENT_FIELD_TO_ADDR := 0xffff000008081010 - 2 ^ 64;
         EVENT_FIELD_CPU := -1;
         EVENT_FIELD_EXNO := 0x80000003 - 2 ^ 32 |} /\
  (caml_event_of ev1 = caml_event_of ev2 -> ev1 = ev2).
Proof.
  intros ev1 ev2.
  assert (H1 : event_in_range ev1) by (repeat split; vm_compute; congruence).
  assert (H2 : event_in_range ev2) by (repeat split; vm_compute; congruence).
  pose proof (caml_event_of_injective ev1 ev2 H1 H2) as (Hrec & Hrest).
  split.
  - exact Hrec.
  - apply Hrest.
Defined.

(** X18.  The stub's [next_event] returns [None] exactly on an empty queue.
    On a session whose queue satisfies the ring invariant: with the queue
    empty the stub returns [None] and the session is unchanged; otherwise
    it returns the record of the oldest event and the queue holds the
    rest. *)
Theorem caml_next_event_front dec :
  queue_wf dec ->
  match queue_contents dec with
  | [] => caml_mtrace_opencsd_next_event dec = (dec, None)
  | ev :: rest =>
      snd (caml_mtrace_opencsd_next_event dec) = Some (caml_event_of ev) /\
      queue_contents (fst (caml_mtrace_opencsd_next_event dec)) = rest /\
      queue_wf (fst (caml_mtrace_opencsd_next_event dec)) /\
      same_session_state (fst (caml_mtrace_opencsd_next_event dec)) dec
  end.
Proof.
  intros Hwf.
  unfold caml_mtrace_opencsd_next_event, mtrace_opencsd_next_event.
  destruct (event_buf_pop_spec dec Hwf)
    as [[-> ->]|(x & l & d & -> & -> & Hwf' & Hc & Hs)]; simpl; done.
Qed.

Lemma caml_next_event_front_witness :
  snd (caml_mtrace_opencsd_next_event sample_errored_session)
    = Some (caml_event_of (sample_event 1)) /\
  queue_contents (fst (caml_mtrace_opencsd_next_event
                         sample_errored_session))
    = [sample_event 2] /\
  queue_wf (fst (caml_mtrace_opencsd_next_event sample_errored_session)) /\
  same_session_state
    (fst (caml_mtrace_opencsd_next_event sample_errored_session))
    sample_errored_session.
Proof.
  exact (caml_next_event_front sample_errored_session
           sample_errored_session_wf).
Defined.
